(** * generate_photos.py: photo manifest generator

    A shallow embedding of [generate_photos.py] and the properties its
    specification states about it.  The script scans a photo directory,
    converts HEIC files to JPEG, reads EXIF date and GPS data, merges the
    category assignments of [photos_config.json] and writes a manifest
    sorted by date.

    Library calls (Pillow, [datetime], [json], [os]) are modelled by what
    the script observes of them; every such model says so in its comment.
    A text is the list of its code points, each below 256: Pillow decodes
    the texts of EXIF tags as Latin-1, one character for every byte.  File
    names are taken to be ASCII where [str.lower] is applied to them.

    The file system and the console do what they are asked, except where
    a definition says what may go wrong: a file that Pillow cannot open,
    decode or encode, a name that is listed without a file behind it, an
    output file that cannot be written, a console that cannot print the
    summary. *)

From Stdlib Require Import ZArith String Ascii List Bool Lia.
From Stdlib Require Import Permutation Sorted.
From Stdlib Require Import PrimFloat FloatOps SpecFloat Uint63.
From stdpp Require Import gmap strings list.

Local Open Scope string_scope.
Local Open Scope Z_scope.

Set Warnings "-inexact-float,-register-all".

(** ** Dates *)

Module Datetime.

(** A naive [datetime.datetime] value. *)
Record datetime := {
  year : Z; month : Z; day : Z;
  hour : Z; minute : Z; second : Z;
  microsecond : Z
}.

Definition digit_chr (d : Z) : ascii := ascii_of_nat (48 + Z.to_nat (d mod 10)).

(** The [w] low decimal digits of [n], zero padded: [%0wd] for [0 <= n < 10^w]. *)
Fixpoint zpad (w : nat) (n : Z) (acc : string) : string :=
  match w with
  | O => acc
  | S w' => zpad w' (n / 10) (String (digit_chr n) acc)
  end.

(** [datetime.isoformat()]: [YYYY-MM-DDTHH:MM:SS], followed by [.ffffff]
    when the microsecond field is not zero. *)
Definition isoformat (dt : datetime) : string :=
  zpad 4 (year dt) ("-" ++ zpad 2 (month dt) ("-" ++ zpad 2 (day dt) ("T" ++
  zpad 2 (hour dt) (":" ++ zpad 2 (minute dt) (":" ++ zpad 2 (second dt)
  (if microsecond dt =? 0 then "" else "." ++ zpad 6 (microsecond dt) "")))))).

Definition digit_val (c : ascii) : option Z :=
  let n := Z.of_nat (nat_of_ascii c) in
  if (48 <=? n) && (n <=? 57) then Some (n - 48) else None.

(** Characters matched by [\s] among the first 256 code points: tab to
    carriage return, the four separators U+001C to U+001F, the blank, the
    next-line control U+0085 and the no-break space U+00A0. *)
Definition is_space (c : ascii) : bool :=
  let n := Z.of_nat (nat_of_ascii c) in
  ((9 <=? n) && (n <=? 13)) || ((28 <=? n) && (n <=? 32)) ||
  (n =? 133) || (n =? 160).

Definition take_digit (s : string) : option (Z * string) :=
  match s with
  | String c r => match digit_val c with Some d => Some (d, r) | None => None end
  | EmptyString => None
  end.

(** A numeric directive: the two-digit alternatives of its regular
    expression come first, the one-digit alternative last. *)
Definition field (two : Z -> Z -> bool) (one : Z -> bool) (s : string)
  : option (Z * string) :=
  match take_digit s with
  | Some (a, r1) =>
      match take_digit r1 with
      | Some (b, r2) =>
          if two a b then Some (10 * a + b, r2)
          else if one a then Some (a, r1) else None
      | None => if one a then Some (a, r1) else None
      end
  | None => None
  end.

Definition literal (c : ascii) (s : string) : option string :=
  match s with
  | String c' r => if Ascii.eqb c c' then Some r else None
  | EmptyString => None
  end.

Fixpoint skip_spaces (s : string) : string :=
  match s with
  | String c r => if is_space c then skip_spaces r else s
  | EmptyString => s
  end.

(** [\s+]: one or more white-space characters. *)
Definition spaces1 (s : string) : option string :=
  match s with
  | String c r => if is_space c then Some (skip_spaces r) else None
  | EmptyString => None
  end.

(** [%Y]: exactly four digits. *)
Definition dir_Y (s : string) : option (Z * string) :=
  match take_digit s with
  | Some (a, s1) =>
    match take_digit s1 with
    | Some (b, s2) =>
      match take_digit s2 with
      | Some (c, s3) =>
        match take_digit s3 with
        | Some (d, s4) => Some (1000 * a + 100 * b + 10 * c + d, s4)
        | None => None
        end
      | None => None
      end
    | None => None
    end
  | None => None
  end.

(** [%m]: [1[0-2]|0[1-9]|[1-9]]. *)
Definition dir_m : string -> option (Z * string) :=
  field (fun a b => ((a =? 1) && (b <=? 2)) || ((a =? 0) && (1 <=? b)))
        (fun a => 1 <=? a).

(** [%d]: [3[0-1]|[1-2]\d|0[1-9]|[1-9]| [1-9]]. *)
Definition dir_d (s : string) : option (Z * string) :=
  match field (fun a b => ((a =? 3) && (b <=? 1)) || ((1 <=? a) && (a <=? 2))
                          || ((a =? 0) && (1 <=? b)))
              (fun a => 1 <=? a) s with
  | Some r => Some r
  | None =>
      match literal " " s with
      | Some r =>
          match take_digit r with
          | Some (a, r') => if 1 <=? a then Some (a, r') else None
          | None => None
          end
      | None => None
      end
  end.

(** [%H]: [2[0-3]|[0-1]\d|\d]. *)
Definition dir_H : string -> option (Z * string) :=
  field (fun a b => ((a =? 2) && (b <=? 3)) || (a <=? 1)) (fun _ => true).

(** [%M]: [[0-5]\d|\d]. *)
Definition dir_M : string -> option (Z * string) :=
  field (fun a _ => a <=? 5) (fun _ => true).

(** [%S]: [6[0-1]|[0-5]\d|\d]. *)
Definition dir_S : string -> option (Z * string) :=
  field (fun a b => ((a =? 6) && (b <=? 1)) || (a <=? 5)) (fun _ => true).

Definition is_leap (y : Z) : bool :=
  ((y mod 4 =? 0) && negb (y mod 100 =? 0)) || (y mod 400 =? 0).

Definition days_in_month (y m : Z) : Z :=
  if m =? 2 then (if is_leap y then 29 else 28)
  else if (m =? 4) || (m =? 6) || (m =? 9) || (m =? 11) then 30
  else 31.

(** The range checks of the [datetime] constructor. *)
Definition valid (dt : datetime) : bool :=
  (1 <=? year dt) && (year dt <=? 9999) &&
  (1 <=? month dt) && (month dt <=? 12) &&
  (1 <=? day dt) && (day dt <=? days_in_month (year dt) (month dt)) &&
  (0 <=? hour dt) && (hour dt <=? 23) &&
  (0 <=? minute dt) && (minute dt <=? 59) &&
  (0 <=? second dt) && (second dt <=? 59).

(** [datetime.strptime(s, '%Y:%m:%d %H:%M:%S')]; [None] stands for the
    [ValueError] it raises.  The text is matched against the regular
    expression the format compiles to (each directive as above, the blank
    of the format as [\s+]), nothing may remain after the match, and the
    fields must form a valid date.  After every numeric directive the
    format continues with a character that is not a digit, or ends, so
    taking the first alternative that matches is what backtracking finds. *)
Definition strptime_exif (s : string) : option datetime :=
  '(y, s) ← dir_Y s;
  s ← literal ":" s;
  '(mo, s) ← dir_m s;
  s ← literal ":" s;
  '(d, s) ← dir_d s;
  s ← spaces1 s;
  '(h, s) ← dir_H s;
  s ← literal ":" s;
  '(mi, s) ← dir_M s;
  s ← literal ":" s;
  '(se, s) ← dir_S s;
  match s with
  | EmptyString =>
      let dt := {| year := y; month := mo; day := d; hour := h;
                   minute := mi; second := se; microsecond := 0 |} in
      if valid dt then Some dt else None
  | _ => None
  end.

End Datetime.

Import Datetime.

(** ** Floating point *)

Module Pyfloat.

Local Open Scope float_scope.

(** [float(n)] for an integer [n]; exact for [|n| < 2^53], the range of
    the 32-bit components of EXIF rationals. *)
Definition of_Z (z : Z) : float :=
  if (z <? 0)%Z then - of_uint63 (Uint63.of_Z (- z)) else of_uint63 (Uint63.of_Z z).

(** A Pillow [IFDRational]. *)
Record rational := { num : Z; den : Z }.

(** [float(r)]: NaN for a zero denominator, else the fraction's value,
    correctly rounded. *)
Definition float_of_rational (r : rational) : float :=
  if (den r =? 0)%Z then nan
  else if (num r =? 0)%Z then 0
  else of_Z (num r) / of_Z (den r).

(** Nearest integer to [m * 2^e], ties to even. *)
Definition round_half_even (m e : Z) : Z :=
  match e with
  | Zneg p =>
      let q := Z.shiftr m (Zpos p) in
      let r := (m - Z.shiftl q (Zpos p))%Z in
      let half := Z.shiftl 1 (Zpos p - 1) in
      if (r <? half)%Z then q
      else if (half <? r)%Z then (q + 1)%Z
      else if Z.even q then q else (q + 1)%Z
  | _ => Z.shiftl m e
  end.

(** [round(x, 6)]: infinities and NaN are returned as they are; a finite
    [x] is rounded to the nearest multiple of [10^-6] (ties to even, on
    the exact value of [x]) and that decimal is converted back to the
    nearest double. *)
Definition round6 (x : float) : float :=
  match Prim2SF x with
  | S754_finite s m e =>
      match round_half_even (Zpos m * 1000000) e with
      | Zpos n => SF2Prim (SFdiv prec emax (S754_finite s n 0) (S754_finite false 1000000 0))
      | _ => SF2Prim (S754_zero s)
      end
  | _ => x
  end.

End Pyfloat.

Import Pyfloat.

(** ** What Pillow shows of an image file *)

(** The exception classes the script can meet, all below [Exception]. *)
Inductive py_exn :=
  | OSError | AttributeError | TypeError | ValueError.

(** A value of the GPS directory as Pillow decodes it: a tuple of
    rationals, a text, a byte string or a single rational. *)
Inductive gps_val :=
  | GTuple (l : list rational)
  | GText (s : string)
  | GBytes (l : list Z)
  | GRational (r : rational).

(** A value of the decoded EXIF table, by what the script does with it:
    [str(v)], and [v.items()], which only a mapping has.  Keys are the
    names the [TAGS] and [GPSTAGS] tables of Pillow give to the numeric
    tags; a tag without a name keeps its number, written in decimal. *)
Record exif_val := {
  py_str : string;
  py_items : option (list (string * gps_val))
}.

Definition text (s : string) : exif_val := {| py_str := s; py_items := None |}.
Definition gps_ifd (items : list (string * gps_val)) : exif_val :=
  {| py_str := "{...}"; py_items := Some items |}.

(** An image file: [Image.open] raises, or it succeeds and [_getexif()]
    raises, or [_getexif()] returns [None] or the items of the tag table. *)
Inductive image :=
  | Unreadable (e : py_exn)
  | NoExif (e : py_exn)
  | Opened (exif_raw : option (list (string * exif_val))).

(** ** extract_exif *)

Record geo := { lat : float; lon : float }.

(** The [result] dictionary of [extract_exif]. *)
Record exif_result := { date : option string; geo_of : option geo }.

Definition set_date (d : string) (r : exif_result) : exif_result :=
  {| date := Some d; geo_of := geo_of r |}.
Definition set_geo (g : geo) (r : exif_result) : exif_result :=
  {| date := date r; geo_of := Some g |}.

(** Code that works on a mutable state and may be interrupted: the
    interruption ends it, and what was stored in the state before stays. *)
Definition SE (E S A : Type) : Type := S -> S * (E + A).

#[global] Instance se_ret {E S} : MRet (SE E S) := fun A x s => (s, inr x).
#[global] Instance se_bind {E S} : MBind (SE E S) := fun A B f c s =>
  match c s with
  | (s', inr x) => f x s'
  | (s', inl e) => (s', inl e)
  end.

Definition raise {E S A} (e : E) : SE E S A := fun s => (s, inl e).
Definition update {E S} (f : S -> S) : SE E S unit := fun s => (f s, inr tt).
Definition gets {E S A} (f : S -> A) : SE E S A := fun s => (s, inr (f s)).
Definition lift {E S A} (x : E + A) : SE E S A := fun s => (s, x).

(** [for x in l: body(x)]. *)
Fixpoint for_each {E S A} (l : list A) (body : A -> SE E S unit) : SE E S unit :=
  match l with
  | [] => mret tt
  | x :: l' => body x ;; for_each l' body
  end.

(** The body of the [try] block of [extract_exif] works on [result]. *)
Abbreviation Try := (SE py_exn exif_result).

(** A dictionary filled by assigning the items in order: a later item
    replaces an earlier one with the same key. *)
Definition dict_of {V} (items : list (string * V)) : gmap string V :=
  foldl (fun m kv => <[kv.1 := kv.2]> m) ∅ items.

(** Lines 84-91: the first tag that is present decides; [break] leaves
    the loop whether or not its value parsed. *)
Fixpoint date_loop (tags : list string) (exif : gmap string exif_val)
    (r : exif_result) : exif_result :=
  match tags with
  | [] => r
  | date_tag :: rest =>
      match exif !! date_tag with
      | Some v =>
          match strptime_exif (py_str v) with
          | Some dt => set_date (isoformat dt) r
          | None => r
          end
      | None => date_loop rest exif r
      end
  end.

Definition date_tags : list string :=
  ["DateTimeOriginal"; "DateTimeDigitized"; "DateTime"].

Definition digit_float (c : ascii) : py_exn + float :=
  match digit_val c with Some d => inr (of_Z d) | None => inl ValueError end.

Definition dms (d m s : float) : float := (d + m / 60 + s / 3600)%float.

(** Lines 100-102.  [d, m, s = value] needs exactly three items; the items
    of a text are its characters, those of a byte string its bytes. *)
Definition to_degrees (value : gps_val) : py_exn + float :=
  match value with
  | GTuple [d; m; s] =>
      inr (dms (float_of_rational d) (float_of_rational m) (float_of_rational s))
  | GTuple _ => inl ValueError
  | GText (String a (String b (String c EmptyString))) =>
      match digit_float a, digit_float b, digit_float c with
      | inr d, inr m, inr s => inr (dms d m s)
      | _, _, _ => inl ValueError
      end
  | GText _ => inl ValueError
  | GBytes [a; b; c] => inr (dms (of_Z a) (of_Z b) (of_Z c))
  | GBytes _ => inl ValueError
  | GRational _ => inl TypeError
  end.

(** [gps_info.get(key, default) == code] for a one-letter text [code]
    other than the default. *)
Definition ref_is (gps_info : gmap string gps_val) (key code : string) : bool :=
  match gps_info !! key with
  | Some (GText s) => String.eqb s code
  | _ => false
  end.

(** Lines 94-111. *)
Definition gps_block (exif : gmap string exif_val) : Try unit :=
  match exif !! "GPSInfo" with
  | Some v =>
      items ← lift (match py_items v with
                    | Some l => inr l
                    | None => inl AttributeError
                    end);
      let gps_info := dict_of items in
      match gps_info !! "GPSLatitude", gps_info !! "GPSLongitude" with
      | Some vlat, Some vlon =>
          lat ← lift (to_degrees vlat);
          lon ← lift (to_degrees vlon);
          let lat := if ref_is gps_info "GPSLatitudeRef" "S" then (- lat)%float else lat in
          let lon := if ref_is gps_info "GPSLongitudeRef" "W" then (- lon)%float else lon in
          update (set_geo {| lat := round6 lat; lon := round6 lon |})
      | _, _ => mret tt
      end
  | None => mret tt
  end.

(** Lines 72-113, the body of the [try]. *)
Definition extract_body (img : image) : Try unit :=
  match img with
  | Unreadable e => raise e
  | NoExif e => raise e
  | Opened None => mret tt
  | Opened (Some []) => mret tt
  | Opened (Some exif_raw) =>
      let exif := dict_of exif_raw in
      update (date_loop date_tags exif) ;;
      gps_block exif
  end.

(** What the script prints. *)
Inductive event :=
  | Exif_error (name : string) (e : py_exn)
  | Heic_skipped (name : string)
  | Heic_converting (name : string)
  | Config_created
  | Config_added (n : nat)
  | Dir_not_found
  | Summary (photos favorites : nat) (collections : list (string * nat)).

(** Line 70. *)
Definition no_result : exif_result := {| date := None; geo_of := None |}.

(** [extract_exif(filepath)]: the result and the diagnostic printed by
    the [except] clause, if any. *)
Definition extract_exif (name : string) (img : image) : exif_result * list event :=
  match extract_body img no_result with
  | (result, inl e) => (result, [Exif_error name e])
  | (result, inr _) => (result, [])
  end.

(** ** Python built-ins on texts and lists *)

#[global] Instance exn_ret : MRet (sum py_exn) := fun A x => inr x.
#[global] Instance exn_bind : MBind (sum py_exn) := fun A B f c =>
  match c with
  | inr x => f x
  | inl e => inl e
  end.

(** [x in s] for two texts. *)
Fixpoint is_substring (x s : string) : bool :=
  String.prefix x s ||
  match s with
  | String _ r => is_substring x r
  | EmptyString => false
  end.

(** [list.sort(key=...)] and [sorted]: the stable sort.  An element goes
    in front of the first element of the sorted tail whose key is not
    smaller, so elements with equal keys keep their order. *)
Fixpoint insert_by {A} (key : A -> string) (x : A) (l : list A) : list A :=
  match l with
  | [] => [x]
  | y :: l' => if String.leb (key x) (key y) then x :: l else y :: insert_by key x l'
  end.

Definition sort_by {A} (key : A -> string) (l : list A) : list A :=
  foldr (insert_by key) [] l.

Definition sorted (l : list string) : list string := sort_by id l.

(** ** JSON values and the configuration *)

Inductive json :=
  | JNull
  | JBool (b : bool)
  | JInt (n : Z)
  | JFloat (x : float)
  | JStr (s : string)
  | JArr (l : list json)
  | JObj (items : list (string * json)).

(** A [dict] with text keys, in insertion order. *)
Fixpoint dict_get {V} (k : string) (d : list (string * V)) : option V :=
  match d with
  | [] => None
  | (k', v) :: d' => if String.eqb k' k then Some v else dict_get k d'
  end.

(** [d[k] = v]: an existing key keeps its place, a new one goes last. *)
Fixpoint dict_set {V} (k : string) (v : V) (d : list (string * V)) : list (string * V) :=
  match d with
  | [] => [(k, v)]
  | (k', v') :: d' => if String.eqb k' k then (k', v) :: d' else (k', v') :: dict_set k v d'
  end.

(** [config.get(key, dflt)]; only a [dict] has [get]. *)
Definition py_get (config : json) (key : string) (dflt : json) : py_exn + json :=
  match config with
  | JObj d => inr (default dflt (dict_get key d))
  | _ => inl AttributeError
  end.

Definition char_texts (s : string) : list string :=
  (fun c => String c EmptyString) <$> list_ascii_of_string s.

Definition hashable (j : json) : bool :=
  match j with
  | JArr _ | JObj _ => false
  | _ => true
  end.

Definition texts_of (l : list json) : list string :=
  omap (fun j => match j with JStr s => Some s | _ => None end) l.

(** [set(j)], kept as the set of its texts: no other member can equal a
    file name.  A list gives its elements, which must be hashable, a text
    its characters, a [dict] its keys; nothing else can be iterated. *)
Definition py_set (j : json) : py_exn + gset string :=
  match j with
  | JArr l =>
      if forallb hashable l then inr (list_to_set (texts_of l)) else inl TypeError
  | JStr s => inr (list_to_set (char_texts s))
  | JObj d => inr (list_to_set (d.*1))
  | _ => inl TypeError
  end.

(** [f in j] for a text [f]. *)
Definition py_in (f : string) (j : json) : py_exn + bool :=
  match j with
  | JArr l => inr (bool_decide (f ∈ texts_of l))
  | JStr s => inr (is_substring f s)
  | JObj d => inr (bool_decide (f ∈ d.*1))
  | _ => inl TypeError
  end.

(** The configuration file: absent, not parseable, or holding a value. *)
Inductive config_file :=
  | Missing
  | Malformed
  | Stored (config : json).

Definition instructions : string :=
  "Assign photos to categories by adding filenames to each array below. " ++
  "After editing, run: source .venv/bin/activate && python3 generate_photos.py".

Definition default_config (all_filenames : list string) : json :=
  JObj [ ("_instructions", JStr instructions);
         ("favorites", JArr []);
         ("collections", JObj [("flowers", JArr []); ("food", JArr []); ("friends", JArr [])]);
         ("_all_photos", JArr (JStr <$> sorted all_filenames)) ].

(** [load_config(all_filenames)] on the state of [CONFIG_FILE]: the
    configuration returned, what was written to the file ([None]: the file
    was not opened for writing) and what was printed; or the exception
    that ends the run. *)
Definition load_config (all_filenames : list string) (cf : config_file)
  : py_exn + (json * option json * list event) :=
  match cf with
  | Missing =>
      inr (default_config all_filenames, Some (default_config all_filenames),
           [Config_created])
  | Malformed => inl ValueError
  | Stored config =>
      known ← py_get config "_all_photos" (JArr []);
      existing ← py_set known;
      let current : gset string := list_to_set all_filenames in
      let new_photos := current ∖ existing in
      if decide (new_photos = ∅) then inr (config, None, [])
      else
        match config with
        | JObj d =>
            let config' := JObj (dict_set "_all_photos"
                                   (JArr (JStr <$> sorted (elements current))) d) in
            inr (config', Some config', [Config_added (size new_photos)])
        | _ => inl TypeError
        end
  end.

(** ** File names *)

Definition lower_char (c : ascii) : ascii :=
  let n := nat_of_ascii c in
  if (65 <=? n)%nat && (n <=? 90)%nat then ascii_of_nat (n + 32) else c.

(** [str.lower()] on ASCII letters. *)
Fixpoint lower (s : string) : string :=
  match s with
  | EmptyString => EmptyString
  | String c r => String (lower_char c) (lower r)
  end.

(** The text before the last dot and the text from it on. *)
Fixpoint split_last_dot (s : string) : option (string * string) :=
  match s with
  | EmptyString => None
  | String c r =>
      match split_last_dot r with
      | Some (a, b) => Some (String c a, b)
      | None => if Ascii.eqb c "." then Some (EmptyString, s) else None
      end
  end.

Fixpoint all_dots (s : string) : bool :=
  match s with
  | EmptyString => true
  | String c r => Ascii.eqb c "." && all_dots r
  end.

(** [os.path.splitext] on a name without directory part: the extension
    starts at the last dot, unless only dots come before it. *)
Definition splitext (p : string) : string * string :=
  match split_last_dot p with
  | Some (root, ext) => if all_dots root then (p, EmptyString) else (root, ext)
  | None => (p, EmptyString)
  end.

Definition SUPPORTED_EXTENSIONS : gset string :=
  {[ ".jpeg"; ".jpg"; ".png"; ".gif"; ".webp" ]}.
Definition HEIC_EXTENSIONS : gset string := {[ ".heic"; ".heif" ]}.

Definition is_heic (f : string) : bool :=
  bool_decide (lower (splitext f).2 ∈ HEIC_EXTENSIONS).
Definition is_supported (f : string) : bool :=
  bool_decide (lower (splitext f).2 ∈ SUPPORTED_EXTENSIONS).

(** ** Photo records and the file system *)

(** A record of the manifest; [None] is an absent key. *)
Record photo := {
  file : string;
  pdate : string;
  pgeo : option geo;
  categories : option (list string)
}.

(** The content of a file of the photo directory.  An image is given by
    what [extract_exif] sees of it ([pil]) and by what saving it as JPEG
    gives ([jpeg]): the image as Pillow reads it back, or the exception
    raised before the target file is touched ([Image.open] raises, the
    picture data cannot be loaded, the target cannot be opened).
    [Unsavable] is an image whose encoding raises [e] when [img.save] has
    already opened the target for writing: a target that was there is left
    truncated, and [rest] is what Pillow sees of what is left; a target
    that was not there is removed again.  The last case is the manifest
    the script writes to [photos_data.json], which holds
    [json.dump(photos, indent=2)]. *)
Inductive content :=
  | Img (pil : image) (jpeg : py_exn + image)
  | Unsavable (pil : image) (e : py_exn) (rest : image)
  | Manifest (photos : list photo).

Definition pil_of (c : content) : image :=
  match c with
  | Img pil _ => pil
  | Unsavable pil _ _ => pil
  | Manifest _ => Unreadable OSError
  end.

Definition jpeg_of (c : content) : py_exn + image :=
  match c with
  | Img _ jpeg => jpeg
  | Unsavable _ e _ => inl e
  | Manifest _ => inl OSError
  end.

(** What a failed [img.save] leaves in a target it had opened. *)
Definition left_of (c : content) : option image :=
  match c with
  | Unsavable _ _ rest => Some rest
  | _ => None
  end.

(** A regular file: its content, and the time [os.path.getmtime] gives.
    A name that is listed without a file behind it has no entry; it is
    one of the [broken_links] of the world below, and [os.path.getmtime]
    raises for it as [Image.open] does. *)
Record file_entry := { content_of : content; mtime : datetime }.

(** What the machine may refuse at the end of a run.  [open(path, 'w')]
    raises an [OSError] for an output file that cannot be written (it is
    read-only, or a directory stands in its place), and the file stays as
    it was; [print] raises [UnicodeEncodeError], a [ValueError], on a
    console whose encoding lacks the check mark of line 229, as
    Windows-1252 does.  The other messages of the script are taken to
    print. *)
Record host := {
  json_writable : bool;
  js_writable : bool;
  unicode_console : bool
}.

(** What the script reads and writes.  [photos_dir] holds the files of
    [PHOTOS_DIR] in the order of [os.listdir] ([None]: no such directory);
    [broken_links] are the names [os.listdir] gives although no file
    stands behind them (symbolic links whose target is missing), each with
    its place among the names listed (see [listing]); [output_js] holds
    the list that [photos_data.js] binds to [PHOTOS_RAW_DATA]; [now] is
    the time given to the files written; [machine] says what the machine
    refuses. *)
Record world := {
  HEIF_SUPPORT : bool;
  photos_dir : option (list (string * file_entry));
  config_state : config_file;
  output_js : option (list photo);
  now : datetime;
  console : list event;
  broken_links : list (nat * string);
  machine : host
}.

Definition OUTPUT_JSON : string := "photos_data.json".

Definition set_dir (d : list (string * file_entry)) (w : world) : world :=
  {| HEIF_SUPPORT := HEIF_SUPPORT w; photos_dir := Some d;
     config_state := config_state w; output_js := output_js w;
     now := now w; console := console w;
     broken_links := broken_links w; machine := machine w |}.
Definition set_config (c : json) (w : world) : world :=
  {| HEIF_SUPPORT := HEIF_SUPPORT w; photos_dir := photos_dir w;
     config_state := Stored c; output_js := output_js w;
     now := now w; console := console w;
     broken_links := broken_links w; machine := machine w |}.
Definition set_output_js (l : list photo) (w : world) : world :=
  {| HEIF_SUPPORT := HEIF_SUPPORT w; photos_dir := photos_dir w;
     config_state := config_state w; output_js := Some l;
     now := now w; console := console w;
     broken_links := broken_links w; machine := machine w |}.
Definition print (es : list event) (w : world) : world :=
  {| HEIF_SUPPORT := HEIF_SUPPORT w; photos_dir := photos_dir w;
     config_state := config_state w; output_js := output_js w;
     now := now w; console := console w ++ es;
     broken_links := broken_links w; machine := machine w |}.

Definition the_dir (w : world) : list (string * file_entry) :=
  default [] (photos_dir w).

(** A name put into a listing after its first [n] names. *)
Fixpoint link_in (n : nat) (f : string) (names : list string) : list string :=
  match n, names with
  | S n', g :: names' => g :: link_in n' f names'
  | _, _ => f :: names
  end.

(** The names of the files and, each at its place, the names of the
    broken links.  A name under which there is a file is no broken link. *)
Definition listing (names : list string) (links : list (nat * string)) : list string :=
  foldr (fun l acc => if bool_decide (l.2 ∈ names) then acc else link_in l.1 l.2 acc)
        names links.

(** [os.listdir(PHOTOS_DIR)]. *)
Definition listdir (w : world) : list string :=
  listing ((the_dir w).*1) (broken_links w).

(** [os.remove]. *)
Definition dir_remove (f : string) (d : list (string * file_entry))
  : list (string * file_entry) :=
  filter (fun kv => kv.1 ≠ f) d.

(** ** The pipeline *)

(** What ends a run early: an exception nobody catches, or [sys.exit]. *)
Inductive abort :=
  | Uncaught (e : py_exn)
  | Exit (code : Z).

Abbreviation Run := (SE abort world).

Definition lift_exn {A} (x : py_exn + A) : Run A :=
  lift (match x with inl e => inl (Uncaught e) | inr a => inr a end).

Definition lookup_file (f : string) : Run file_entry :=
  d ← gets the_dir;
  lift_exn (match dict_get f d with Some e => inr e | None => inl OSError end).

(** [convert_heic_to_jpeg(filepath)], lines 49-65.  The JPEG is saved
    beside the source, then the source is removed.  When [img.save]
    raises in the encoder, a JPEG that stood under the target name has
    been truncated by then, and the exception leaves the function with
    the source still in place. *)
Definition convert_heic_to_jpeg (f : string) : Run (option string) :=
  heif ← gets HEIF_SUPPORT;
  if negb heif then
    update (print [Heic_skipped f]) ;; mret None
  else
    let new_path := (splitext f).1 ++ ".jpeg" in
    update (print [Heic_converting f]) ;;
    entry ← lookup_file f;
    t ← gets now;
    d ← gets the_dir;
    match jpeg_of (content_of entry) with
    | inr img =>
        update (set_dir (dir_remove f
          (dict_set new_path {| content_of := Img img (inr img); mtime := t |} d))) ;;
        mret (Some new_path)
    | inl e =>
        match left_of (content_of entry), dict_get new_path d with
        | Some rest, Some _ =>
            update (set_dir
              (dict_set new_path {| content_of := Img rest (inl OSError); mtime := t |} d))
        | _, _ => mret tt
        end ;;
        raise (Uncaught e)
    end.

(** Lines 190-195: the categories of file [f]. *)
Fixpoint collect (f : string) (items : list (string * json)) (cats : list string)
  : py_exn + list string :=
  match items with
  | [] => inr cats
  | (col_name, col_files) :: rest =>
      b ← py_in f col_files;
      collect f rest (if b : bool then cats ++ [col_name] else cats)
  end.

Definition categories_of (favorites_set : gset string) (collections_config : json)
    (f : string) : py_exn + list string :=
  let cats := if bool_decide (f ∈ favorites_set) then ["favorites"] else [] in
  match collections_config with
  | JObj items => collect f items cats
  | _ => inl AttributeError
  end.

(** Truth value of [exif["date"]]. *)
Definition truthy (o : option string) : bool :=
  match o with
  | Some (String _ _) => true
  | _ => false
  end.

(** Lines 185-187 and 197-204, once [extract_exif] has returned [exif]. *)
Definition photo_of (f : string) (exif : exif_result) (mtime_iso : string)
    (cats : list string) : photo :=
  {| file := f;
     pdate := if truthy (date exif) then default EmptyString (date exif) else mtime_iso;
     pgeo := geo_of exif;
     categories := match cats with [] => None | _ => Some cats end |}.

(** Lines 181-206, the body of the loop over [files]. *)
Definition process (favorites_set : gset string) (collections_config : json)
    (f : string) : Run photo :=
  d ← gets the_dir;
  let img := match dict_get f d with
             | Some e => pil_of (content_of e)
             | None => Unreadable OSError
             end in
  let '(exif, diagnostics) := extract_exif f img in
  update (print diagnostics) ;;
  mtime_iso ← (if truthy (date exif) then mret EmptyString
               else entry ← lookup_file f; mret (isoformat (mtime entry)));
  cats ← lift_exn (categories_of favorites_set collections_config f);
  mret (photo_of f exif mtime_iso cats).

(** [for x in l: out.append(body(x))]. *)
Fixpoint map_each {E S A B} (l : list A) (body : A -> SE E S B) : SE E S (list B) :=
  match l with
  | [] => mret []
  | x :: l' => y ← body x; ys ← map_each l' body; mret (y :: ys)
  end.

Definition cats_of (p : photo) : list string := default [] (categories p).

(** Lines 222-227. *)
Definition fav_count (photos : list photo) : nat :=
  length (filter (fun p => "favorites" ∈ cats_of p) photos).

Definition col_counts (photos : list photo) : list (string * nat) :=
  foldl (fun counts c =>
           if String.eqb c "favorites" then counts
           else dict_set c (default 0%nat (dict_get c counts) + 1)%nat counts)
        [] (photos ≫= cats_of).

(** Step 1, lines 162-165. *)
Definition convert_all (names : list string) : Run unit :=
  for_each names (fun f =>
    if is_heic f then convert_heic_to_jpeg f ;; mret tt else mret tt).

(** Step 2, lines 168-171, on the names [os.listdir] gives. *)
Definition supported_names (names : list string) : list string :=
  sorted (filter (fun f => is_supported f) names).

(** The scan of the files of a directory. *)
Definition scan (d : list (string * file_entry)) : list string :=
  supported_names (d.*1).

(** Step 3, lines 174-176. *)
Definition configure (files : list string) : Run (gset string * json) :=
  cf ← gets config_state;
  '(config, written, printed) ← lift_exn (load_config files cf);
  update (match written with Some c => set_config c | None => id end) ;;
  update (print printed) ;;
  favorites_set ← lift_exn (py_get config "favorites" (JArr []) ≫= py_set);
  collections_config ← lift_exn (py_get config "collections" (JObj []));
  mret (favorites_set, collections_config).

(** [open(path, 'w')] on an output file. *)
Definition open_w (writable : host -> bool) : Run unit :=
  h ← gets machine;
  if writable h then mret tt else raise (Uncaught OSError).

(** Lines 211-219 and 229-234: the JSON file is written, then the JS
    file, then the summary is printed; the first line of the summary is
    the one with the check mark. *)
Definition emit (photos : list photo) : Run unit :=
  open_w json_writable ;;
  t ← gets now;
  d ← gets the_dir;
  update (set_dir (dict_set OUTPUT_JSON
                     {| content_of := Manifest photos; mtime := t |} d)) ;;
  open_w js_writable ;;
  update (set_output_js photos) ;;
  h ← gets machine;
  if unicode_console h then
    update (print [Summary (length photos) (fav_count photos) (col_counts photos)])
  else raise (Uncaught ValueError).

(** [main()]. *)
Definition main : Run unit :=
  dir ← gets photos_dir;
  match dir with
  | None => update (print [Dir_not_found]) ;; raise (Exit 1)
  | Some _ =>
      names ← gets listdir;
      convert_all names ;;
      names ← gets listdir;
      let files := supported_names names in
      '(favorites_set, collections_config) ← configure files;
      photos ← map_each files (process favorites_set collections_config);
      emit (sort_by pdate photos)
  end.

(** ** The specification's wording, for comparison *)

(** The value of the first of [tags] that the table holds. *)
Fixpoint spec_first_present (tags : list string) (exif : gmap string exif_val)
  : option exif_val :=
  match tags with
  | [] => None
  | t :: rest =>
      match exif !! t with
      | Some v => Some v
      | None => spec_first_present rest exif
      end
  end.

(** The date as the specification words it: the first of [tags] that is
    both present and parseable; a field that does not parse counts as
    absent. *)
Fixpoint spec_first_parseable (tags : list string) (exif : gmap string exif_val)
  : option string :=
  match tags with
  | [] => None
  | t :: rest =>
      match exif !! t ≫= (fun v => strptime_exif (py_str v)) with
      | Some dt => Some (isoformat dt)
      | None => spec_first_parseable rest exif
      end
  end.


#[global] Instance rational_eq_dec : EqDecision rational.
Proof. solve_decision. Defined.
#[global] Instance gps_val_eq_dec : EqDecision gps_val.
Proof. solve_decision. Defined.


(** [_all_photos] as the specification words its update: the sorted
    union of the names known before and the names discovered now. *)
Definition spec_all_photos (existing : gset string) (all_filenames : list string)
  : list string :=
  sorted (elements (existing ∪ list_to_set all_filenames)).

(** The categories as the specification words them: "favorites" first
    when the file is a favourite, then the name of every collection whose
    list holds the file, in the order of the mapping. *)
Definition spec_categories (favorites : list json)
    (collections : list (string * list json)) (f : string) : list string :=
  (if bool_decide (f ∈ texts_of favorites) then ["favorites"] else []) ++
  (filter (fun kv => f ∈ texts_of kv.2) collections).*1.

(** The manifest a world holds in [photos_data.json]. *)
Definition manifest (w : world) : option (list photo) :=
  match dict_get OUTPUT_JSON (the_dir w) with
  | Some {| content_of := Manifest photos |} => Some photos
  | _ => None
  end.

Definition set_now (t : datetime) (w : world) : world :=
  {| HEIF_SUPPORT := HEIF_SUPPORT w; photos_dir := photos_dir w;
     config_state := config_state w; output_js := output_js w;
     now := t; console := console w;
     broken_links := broken_links w; machine := machine w |}.

(** Order of two elements by their keys, as the sort compares them. *)
Definition key_le {A} (key : A -> string) (x y : A) : Prop :=
  String.leb (key x) (key y) = true.

(** ** Worlds used as concrete inputs *)

(** A machine that refuses nothing. *)
Definition willing : host :=
  {| json_writable := true; js_writable := true; unicode_console := true |}.

Definition whole (n : Z) : rational := {| num := n; den := 1 |}.

Definition noon : datetime :=
  {| year := 2024; month := 5; day := 6; hour := 12; minute := 0; second := 0;
     microsecond := 0 |}.

Definition jpeg_file (img : image) : file_entry :=
  {| content_of := Img img (inr img); mtime := noon |}.

(** An original-capture field that does not parse, before a generic
    field that does. *)
Definition c1_raw : list (string * exif_val) :=
  [ ("DateTimeOriginal", text "not a date");
    ("DateTime", text "2021:03:04 05:06:07") ].

Definition c1_world : world :=
  {| HEIF_SUPPORT := true;
     photos_dir := Some [("a.jpg", jpeg_file (Opened (Some c1_raw)))];
     config_state := Missing; output_js := None; now := noon; console := [];
     broken_links := []; machine := willing |}.

(** The record the script makes of that file. *)
Definition c1_photo : photo :=
  {| file := "a.jpg"; pdate := "2024-05-06T12:00:00"; pgeo := None;
     categories := None |}.

(** A valid date, and a latitude of two components instead of three. *)
Definition c4_image : image :=
  Opened (Some
    [ ("DateTime", text "2021:03:04 05:06:07");
      ("GPSInfo", gps_ifd [ ("GPSLatitude", GTuple [whole 40; whole 26]);
                            ("GPSLongitude", GTuple [whole 79; whole 58; whole 56]) ]) ]).

(** 40°26'46" N, 79°58'56" W. *)
Definition c5_items : list (string * gps_val) :=
  [ ("GPSLatitudeRef", GText "N");
    ("GPSLatitude", GTuple [whole 40; whole 26; whole 46]);
    ("GPSLongitudeRef", GText "W");
    ("GPSLongitude", GTuple [whole 79; whole 58; whole 56]) ].

Definition c5_raw : list (string * exif_val) := [ ("GPSInfo", gps_ifd c5_items) ].

(** The items of a collection mapping whose values are all lists. *)
Definition collection_items (collections : list (string * list json))
  : list (string * json) :=
  (fun kv => (kv.1, JArr kv.2)) <$> collections.

(** Three photos; the configuration of the specification's example:
    [a.jpg] is a favourite, [flowers] lists [a.jpg] and [b.jpg].  The
    files [a.jpg] and [b.jpg] carry the same capture time, [c.jpg] has no
    metadata and an older modification time. *)
Definition morning : datetime :=
  {| year := 2020; month := 1; day := 2; hour := 3; minute := 4; second := 5;
     microsecond := 0 |}.

Definition shot : image := Opened (Some [("DateTimeOriginal", text "2021:03:04 05:06:07")]).

Definition demo_favorites : list json := [JStr "a.jpg"].
Definition demo_collections : list (string * list json) :=
  [("flowers", [JStr "a.jpg"; JStr "b.jpg"])].

Definition demo_config : json :=
  JObj [ ("favorites", JArr demo_favorites);
         ("collections", JObj (collection_items demo_collections));
         ("_all_photos", JArr [JStr "a.jpg"; JStr "b.jpg"; JStr "c.jpg"]) ].

Definition demo_world : world :=
  {| HEIF_SUPPORT := true;
     photos_dir := Some [ ("b.jpg", jpeg_file shot);
                          ("c.jpg", {| content_of := Img (Opened None) (inr (Opened None));
                                       mtime := morning |});
                          ("a.jpg", jpeg_file shot) ];
     config_state := Stored demo_config;
     output_js := None; now := noon; console := [];
     broken_links := []; machine := willing |}.

Definition demo_a : photo :=
  {| file := "a.jpg"; pdate := "2021-03-04T05:06:07"; pgeo := None;
     categories := Some ["favorites"; "flowers"] |}.
Definition demo_b : photo :=
  {| file := "b.jpg"; pdate := "2021-03-04T05:06:07"; pgeo := None;
     categories := Some ["flowers"] |}.
Definition demo_c : photo :=
  {| file := "c.jpg"; pdate := "2020-01-02T03:04:05"; pgeo := None;
     categories := None |}.

Definition demo_manifest : list photo := [demo_c; demo_a; demo_b].

(** The world the script leaves when run on [demo_world]. *)
Definition demo_final : world := (main demo_world).1.

#[global] Instance py_exn_eq_dec : EqDecision py_exn.
Proof. solve_decision. Defined.

(** A favourite listed twice, and a collection that is itself named
    "favorites". *)
Definition c10_config : json :=
  JObj [ ("favorites", JArr [JStr "a.jpg"; JStr "a.jpg"]);
         ("collections", JObj [("favorites", JArr [JStr "a.jpg"])]);
         ("_all_photos", JArr [JStr "a.jpg"]) ].

Definition c10_world : world :=
  {| HEIF_SUPPORT := true;
     photos_dir := Some [("a.jpg", jpeg_file shot)];
     config_state := Stored c10_config;
     output_js := None; now := noon; console := [];
     broken_links := []; machine := willing |}.

(** How often a record names the category "favorites". *)
Definition favorites_count (cats : list string) : nat :=
  length (filter (fun c => c = "favorites") cats).

(** The value a configuration holds under [key], if any. *)
Definition entry (key : string) (config : json) : option json :=
  match config with
  | JObj d => dict_get key d
  | _ => None
  end.

(** The names a configuration knows: [set(config.get("_all_photos", []))]. *)
Definition known_photos (config : json) : py_exn + gset string :=
  py_get config "_all_photos" (JArr []) ≫= py_set.

(** Every run of [c] takes a world to one that [R] relates to it,
    however the run ends. *)
Definition steps {A} (R : world -> world -> Prop) (c : Run A) : Prop :=
  forall w, R w (c w).1.

(** The configuration file holds the same values under every key except
    [_all_photos], or still does not exist. *)
Definition same_assignments (w w' : world) : Prop :=
  match config_state w with
  | Stored config =>
      exists config', config_state w' = Stored config' /\
        forall key, key <> "_all_photos" -> entry key config' = entry key config
  | _ => True
  end.

(** A configuration that knows a file no longer on disk. *)
Definition c2_config : json :=
  JObj [ ("favorites", JArr [JStr "old.jpg"]);
         ("collections", JObj []);
         ("_all_photos", JArr [JStr "old.jpg"]) ].

Definition c2_updated : json :=
  JObj [ ("favorites", JArr [JStr "old.jpg"]);
         ("collections", JObj []);
         ("_all_photos", JArr [JStr "new.jpg"]) ].

(** The part [g] of the world is the same after as before. *)
Definition kept {X} (g : world -> X) (w w' : world) : Prop := g w' = g w.

(** A new file beside the one the configuration of [c2_config] knows. *)
Definition c8_world : world :=
  {| HEIF_SUPPORT := true;
     photos_dir := Some [("new.jpg", jpeg_file shot)];
     config_state := Stored c2_config;
     output_js := None; now := noon; console := [];
     broken_links := []; machine := willing |}.

(** A HEIC file that cannot be decoded, listed before a good JPEG. *)
Definition c3_world : world :=
  {| HEIF_SUPPORT := true;
     photos_dir := Some [ ("bad.heic", {| content_of := Img (Unreadable OSError) (inl OSError);
                                           mtime := morning |});
                          ("good.jpg", jpeg_file shot) ];
     config_state := Stored demo_config;
     output_js := None; now := noon; console := [];
     broken_links := []; machine := willing |}.

(** The same bytes under a JPEG name. *)
Definition c3_sibling : world :=
  {| HEIF_SUPPORT := true;
     photos_dir := Some [ ("bad.jpg", {| content_of := Img (Unreadable OSError) (inl OSError);
                                          mtime := morning |});
                          ("good.jpg", jpeg_file shot) ];
     config_state := Stored demo_config;
     output_js := None; now := noon; console := [];
     broken_links := []; machine := willing |}.

(** A first run that has everything to do: a HEIC file to convert, no
    configuration file yet. *)
Definition c9_world : world :=
  {| HEIF_SUPPORT := true;
     photos_dir := Some [ ("x.HEIC", {| content_of := Img (NoExif AttributeError) (inr shot);
                                         mtime := morning |});
                          ("a.jpg", {| content_of := Img (Opened None) (inr (Opened None));
                                       mtime := morning |}) ];
     config_state := Missing;
     output_js := None; now := noon; console := [];
     broken_links := []; machine := willing |}.

Definition c9_first : world := (main c9_world).1.


(** What [process] prints and returns for a file, given the entry the
    directory holds under its name. *)
Definition process_result (favorites_set : gset string) (collections_config : json)
    (f : string) (o : option file_entry) : list event * (abort + photo) :=
  let img := match o with
             | Some e => pil_of (content_of e)
             | None => Unreadable OSError
             end in
  let '(exif, diagnostics) := extract_exif f img in
  (diagnostics,
   if truthy (date exif) then
     match categories_of favorites_set collections_config f with
     | inr cats => inr (photo_of f exif EmptyString cats)
     | inl e => inl (Uncaught e)
     end
   else
     match o with
     | Some e =>
         match categories_of favorites_set collections_config f with
         | inr cats => inr (photo_of f exif (isoformat (mtime e)) cats)
         | inl e => inl (Uncaught e)
         end
     | None => inl (Uncaught OSError)
     end).

(** The path [convert_heic_to_jpeg] saves to (line 55). *)
Definition jpeg_name (f : string) : string := (splitext f).1 ++ ".jpeg".

(** A run of [c] that is interrupted leaves the part [g] of the world as
    it found it. *)
Definition quiet {X A} (g : world -> X) (c : Run A) : Prop :=
  forall w w' a, c w = (w', inl a) -> g w' = g w.



(** A configuration without the [_all_photos] key. *)
Definition keyless_config : json :=
  JObj [ ("favorites", JArr [JStr "a.jpg"]); ("collections", JObj []) ].

Definition keyless_updated : json :=
  JObj [ ("favorites", JArr [JStr "a.jpg"]); ("collections", JObj []);
         ("_all_photos", JArr [JStr "a.jpg"]) ].

(** How often a category occurs in the records. *)
Definition occurrences (c : string) (photos : list photo) : nat :=
  length (filter (fun x => x = c) (photos ≫= cats_of)).

(** A GPS directory with a latitude only. *)
Definition lat_only : image :=
  Opened (Some [ ("GPSInfo", gps_ifd [ ("GPSLatitude", GTuple [whole 40; whole 26; whole 46]) ]) ]).


(** The world of [c9_world] on a machine without [pillow_heif]. *)
Definition no_heif_world : world :=
  {| HEIF_SUPPORT := false; photos_dir := photos_dir c9_world;
     config_state := Missing; output_js := None; now := noon; console := [];
     broken_links := []; machine := willing |}.

(** Comparison by a first criterion, then by a second. *)
Definition lex (c rest : comparison) : comparison :=
  match c with
  | Eq => rest
  | _ => c
  end.

(** Which of two times is the earlier. *)
Definition chronological (a b : datetime) : comparison :=
  lex (year a ?= year b) (lex (month a ?= month b) (lex (day a ?= day b)
  (lex (hour a ?= hour b) (lex (minute a ?= minute b) (lex (second a ?= second b)
  (microsecond a ?= microsecond b)))))).

(** The microsecond field is one the [datetime] constructor accepts. *)
Definition valid_us (dt : datetime) : Prop := 0 <= microsecond dt < 1000000.

(** What an [img.save] that raises leaves behind: a JPEG that stood
    under the target name is truncated when the encoder had been reached,
    and nothing else is touched. *)
Definition after_failed_save (f : string) (e : file_entry) (w : world) : world :=
  match left_of (content_of e), dict_get (jpeg_name f) (the_dir w) with
  | Some rest, Some _ =>
      set_dir (dict_set (jpeg_name f)
                 {| content_of := Img rest (inl OSError); mtime := now w |} (the_dir w)) w
  | _, _ => w
  end.

(** A HEIC file whose encoding fails (an image mode JPEG cannot store)
    beside a JPEG that already has the name of its target. *)
Definition unsavable_world : world :=
  {| HEIF_SUPPORT := true;
     photos_dir := Some [ ("x.jpeg", jpeg_file shot);
                          ("x.HEIC", {| content_of := Unsavable (Opened None) OSError
                                                        (Unreadable OSError);
                                        mtime := morning |}) ];
     config_state := Missing; output_js := None; now := noon; console := [];
     broken_links := []; machine := willing |}.







Definition evening : datetime :=
  {| year := 2024; month := 5; day := 6; hour := 20; minute := 0; second := 0;
     microsecond := 0 |}.

(** A HEIC file without metadata, to be converted. *)
Definition c9_undated : world :=
  {| HEIF_SUPPORT := true;
     photos_dir := Some [ ("x.HEIC", {| content_of := Img (Opened None) (inr (Opened None));
                                         mtime := morning |}) ];
     config_state := Missing;
     output_js := None; now := noon; console := [];
     broken_links := []; machine := willing |}.

(** * Proofs *)

(** ** Properties of [extract_exif] *)

Lemma dict_of_nil {V} : dict_of (@nil (string * V)) = ∅.
Proof. reflexivity. Qed.

Lemma zpad_cons (w : nat) (n : Z) (acc : string) :
  exists c r, zpad (S w) n acc = String c r.
Proof.
  revert n acc. induction w as [|w IH]; intros n acc.
  - simpl. eauto.
  - destruct (IH (n / 10) (String (digit_chr n) acc)) as (c & r & E).
    exists c, r. exact E.
Qed.

Lemma isoformat_truthy (dt : datetime) : truthy (Some (isoformat dt)) = true.
Proof.
  unfold isoformat.
  match goal with
  | |- context [zpad 4 ?n ?acc] => destruct (zpad_cons 3 n acc) as (c & r & E)
  end.
  rewrite E. reflexivity.
Qed.

Lemma date_loop_spec (tags : list string) (exif : gmap string exif_val) (r : exif_result) :
  date (date_loop tags exif r) =
    match spec_first_present tags exif with
    | Some v =>
        match strptime_exif (py_str v) with
        | Some dt => Some (isoformat dt)
        | None => date r
        end
    | None => date r
    end.
Proof.
  induction tags as [|t tags IH]; simpl; [reflexivity|].
  destruct (exif !! t) as [v|]; [|exact IH].
  destruct (strptime_exif (py_str v)); reflexivity.
Qed.

Lemma date_loop_geo (tags : list string) (exif : gmap string exif_val) (r : exif_result) :
  geo_of (date_loop tags exif r) = geo_of r.
Proof.
  induction tags as [|t tags IH]; simpl; [reflexivity|].
  destruct (exif !! t) as [v|]; [|exact IH].
  destruct (strptime_exif (py_str v)); reflexivity.
Qed.

Ltac se_unfold :=
  cbv beta iota delta [mbind mret se_bind se_ret exn_bind exn_ret
                       lift raise update gets] in *.

(** The GPS block never touches the date, and stores coordinates only
    when it ends without an exception. *)
Lemma gps_block_frame (exif : gmap string exif_val) (r : exif_result) :
  date (gps_block exif r).1 = date r /\
  (forall e, (gps_block exif r).2 = inl e -> (gps_block exif r).1 = r).
Proof.
  unfold gps_block.
  destruct (exif !! "GPSInfo") as [v|]; [|split; [reflexivity|discriminate]].
  se_unfold.
  destruct (py_items v) as [items|]; [|split; [reflexivity|intros; reflexivity]].
  destruct (dict_of items !! "GPSLatitude") as [vlat|];
    [|split; [reflexivity|discriminate]].
  destruct (dict_of items !! "GPSLongitude") as [vlon|];
    [|split; [reflexivity|discriminate]].
  destruct (to_degrees vlat) as [e1|x]; [split; [reflexivity|intros; reflexivity]|].
  destruct (to_degrees vlon) as [e2|y]; [split; [reflexivity|intros; reflexivity]|].
  split; [reflexivity|discriminate].
Qed.

Lemma extract_exif_date (name : string) (raw : list (string * exif_val)) :
  date (extract_exif name (Opened (Some raw))).1 =
    match spec_first_present date_tags (dict_of raw) with
    | Some v => isoformat <$> strptime_exif (py_str v)
    | None => None
    end.
Proof.
  unfold extract_exif.
  destruct raw as [|kv raw]; [reflexivity|].
  set (exif := dict_of (kv :: raw)).
  change (extract_body (Opened (Some (kv :: raw))) no_result)
    with (gps_block exif (date_loop date_tags exif no_result)).
  pose proof (gps_block_frame exif (date_loop date_tags exif no_result)) as [Hd _].
  rewrite date_loop_spec in Hd.
  destruct (gps_block exif (date_loop date_tags exif no_result)) as [res [e|[]]];
    cbn [fst snd] in *; rewrite Hd;
    destruct (spec_first_present date_tags exif) as [v|]; try reflexivity;
    destruct (strptime_exif (py_str v)); reflexivity.
Qed.


Lemma process_ok (favorites_set : gset string) (collections_config : json)
    (f : string) (w w' : world) (p : photo) :
  process favorites_set collections_config f w = (w', inr p) ->
  let img := match dict_get f (the_dir w) with
             | Some e => pil_of (content_of e)
             | None => Unreadable OSError
             end in
  let exif := (extract_exif f img).1 in
  w' = print (extract_exif f img).2 w /\
  exists cats, categories_of favorites_set collections_config f = inr cats /\
    ((truthy (date exif) = true /\ p = photo_of f exif EmptyString cats) \/
     (truthy (date exif) = false /\
      exists e, dict_get f (the_dir w) = Some e /\
                p = photo_of f exif (isoformat (mtime e)) cats)).
Proof.
  intros H img exif. unfold process, lookup_file, lift_exn in H. se_unfold.
  fold img in H. destruct (extract_exif f img) as [ex diag] eqn:Ex.
  subst exif. cbn [fst snd] in *.
  destruct (truthy (date ex)) eqn:T.
  - destruct (categories_of favorites_set collections_config f) as [e|cats];
      [discriminate|].
    injection H as <- <-. split; [reflexivity|]. exists cats. eauto.
  - change (the_dir (print diag w)) with (the_dir w) in H.
    destruct (dict_get f (the_dir w)) as [e|]; [|discriminate].
    destruct (categories_of favorites_set collections_config f) as [e'|cats];
      [discriminate|].
    injection H as <- <-. split; [reflexivity|]. exists cats. split; [reflexivity|].
    right. split; [reflexivity|]. exists e. split; reflexivity.
Qed.

(** The blank of the format stands for any run of white space, the
    no-break space U+00A0 and the next-line control U+0085 included. *)
Example strptime_exif_blanks :
  strptime_exif "2021:03:04 05:06:07"
    = Some {| year := 2021; month := 3; day := 4; hour := 5; minute := 6; second := 7;
              microsecond := 0 |} /\
  strptime_exif ("2021:03:04" ++ String (ascii_of_nat 160) "05:06:07")
    = strptime_exif "2021:03:04 05:06:07" /\
  strptime_exif ("2021:03:04" ++ String (ascii_of_nat 133) (String " " "05:06:07"))
    = strptime_exif "2021:03:04 05:06:07" /\
  strptime_exif "2021:03:04_05:06:07" = None.
Proof. repeat split; vm_compute; reflexivity. Qed.

(** ** The date and the coordinates of a record *)

(** C1 (as amended).  The date of a record comes from the first of
    DateTimeOriginal, DateTimeDigitized, DateTime that is present in the
    decoded EXIF table: when its value parses as YYYY:MM:DD HH:MM:SS the
    date is that time in ISO form; when it does not parse, or when none of
    the three is present, the record gets the file's modification time. *)
Theorem C1_first_present_field_decides
    (favorites_set : gset string) (collections_config : json) (f : string)
    (w w' : world) (p : photo) (e : file_entry) (raw : list (string * exif_val)) :
  dict_get f (the_dir w) = Some e ->
  pil_of (content_of e) = Opened (Some raw) ->
  process favorites_set collections_config f w = (w', inr p) ->
  pdate p =
    match spec_first_present date_tags (dict_of raw) with
    | Some v =>
        match strptime_exif (py_str v) with
        | Some dt => isoformat dt
        | None => isoformat (mtime e)
        end
    | None => isoformat (mtime e)
    end.
Proof.
  intros Hf Himg Hp. apply process_ok in Hp. cbn zeta in Hp.
  rewrite Hf, Himg in Hp. destruct Hp as (_ & cats & _ & Hp).
  pose proof (extract_exif_date f raw) as Hd.
  destruct Hp as [[T ->]|(T & e' & [= <-] & ->)]; cbn [pdate photo_of];
    rewrite T; rewrite Hd in *;
    destruct (spec_first_present date_tags (dict_of raw)) as [v|];
    try reflexivity; try discriminate;
    destruct (strptime_exif (py_str v)) as [dt|]; cbn in *;
    try reflexivity; try discriminate.
Qed.

Lemma C1_witness :
  process ∅ (JObj []) "a.jpg" c1_world = (c1_world, inr c1_photo) /\
  pdate c1_photo = "2024-05-06T12:00:00".
Proof.
  assert (H : process ∅ (JObj []) "a.jpg" c1_world = (c1_world, inr c1_photo))
    by (vm_compute; reflexivity).
  split; [exact H|].
  exact (C1_first_present_field_decides ∅ (JObj []) "a.jpg" c1_world c1_world
           c1_photo (jpeg_file (Opened (Some c1_raw))) c1_raw eq_refl eq_refl H).
Defined.

(** C1 as the specification states it fails: the original-capture field
    is present and does not parse, the generic field is present and
    parses, and [extract_exif] still returns no date. *)
Lemma C1_counterexample :
  date (extract_exif "a.jpg" (Opened (Some c1_raw))).1 = None /\
  spec_first_parseable date_tags (dict_of c1_raw) = Some "2021-03-04T05:06:07".
Proof. split; vm_compute; reflexivity. Qed.

(** C4 (as amended).  When decoding the metadata of a file raises,
    [extract_exif] catches the exception and logs it, and the result holds
    no coordinates; its date is null when the file could not be opened or
    decoded at all, and otherwise is whatever the timestamp fields gave
    before the exception. *)
Theorem C4_decode_error_is_caught (name : string) (img : image) (e : py_exn) :
  (extract_body img no_result).2 = inl e ->
  (extract_exif name img).2 = [Exif_error name e] /\
  geo_of (extract_exif name img).1 = None /\
  date (extract_exif name img).1 =
    match img with
    | Opened (Some raw) =>
        match spec_first_present date_tags (dict_of raw) with
        | Some v => isoformat <$> strptime_exif (py_str v)
        | None => None
        end
    | _ => None
    end.
Proof.
  intros He.
  assert (Hlog : (extract_exif name img).2 = [Exif_error name e]).
  { unfold extract_exif. destruct (extract_body img no_result) as [res [e'|[]]];
      simpl in He; [injection He as ->; reflexivity | discriminate]. }
  split; [exact Hlog|].
  destruct img as [e0|e0|[raw|]].
  - split; reflexivity.
  - split; reflexivity.
  - split; [|apply extract_exif_date].
    destruct raw as [|kv raw]; [discriminate|].
    unfold extract_exif.
    change (extract_body (Opened (Some (kv :: raw))) no_result)
      with (gps_block (dict_of (kv :: raw))
              (date_loop date_tags (dict_of (kv :: raw)) no_result)) in *.
    destruct (gps_block_frame (dict_of (kv :: raw))
                (date_loop date_tags (dict_of (kv :: raw)) no_result)) as [_ Hf].
    specialize (Hf e He).
    destruct (gps_block (dict_of (kv :: raw))
                (date_loop date_tags (dict_of (kv :: raw)) no_result))
      as [res [e'|[]]]; [|discriminate].
    cbn [fst snd] in *. subst res. apply date_loop_geo.
  - discriminate.
Qed.

Lemma C4_witness :
  (extract_exif "a.jpg" c4_image).2 = [Exif_error "a.jpg" ValueError] /\
  geo_of (extract_exif "a.jpg" c4_image).1 = None /\
  date (extract_exif "a.jpg" c4_image).1 = Some "2021-03-04T05:06:07".
Proof.
  assert (He : (extract_body c4_image no_result).2 = inl ValueError)
    by (vm_compute; reflexivity).
  destruct (C4_decode_error_is_caught "a.jpg" c4_image ValueError He)
    as (Hlog & Hgeo & Hdate).
  split; [exact Hlog|]. split; [exact Hgeo|].
  rewrite Hdate. vm_compute. reflexivity.
Defined.

(** C4 as the specification states it fails: decoding raises (the
    latitude has two components), and the result still carries a date. *)
Lemma C4_counterexample :
  (extract_body c4_image no_result).2 = inl ValueError /\
  (extract_exif "a.jpg" c4_image).1 =
    {| date := Some "2021-03-04T05:06:07"; geo_of := None |} /\
  (extract_exif "a.jpg" c4_image).1 <> no_result.
Proof.
  split; [vm_compute; reflexivity|].
  split; [vm_compute; reflexivity|].
  vm_compute. discriminate.
Qed.



(** ** Lemmas on the state and exception monad *)

Lemma bind_ok {E S A B} (c : SE E S A) (f : A -> SE E S B) (s s' : S) (y : B) :
  (c ≫= f) s = (s', inr y) ->
  exists s1 x, c s = (s1, inr x) /\ f x s1 = (s', inr y).
Proof.
  unfold mbind, se_bind. destruct (c s) as [s1 [e|x]]; [discriminate|].
  intros H. exists s1, x. split; [reflexivity|exact H].
Qed.

Lemma bind_eq {E S A B} (c : SE E S A) (f : A -> SE E S B) (s s1 : S) (x : A) :
  c s = (s1, inr x) -> (c ≫= f) s = f x s1.
Proof. intros H. unfold mbind, se_bind. rewrite H. reflexivity. Qed.

Lemma map_each_ok {E S A B} (P : A -> B -> Prop) (body : A -> SE E S B) :
  (forall x s s' y, body x s = (s', inr y) -> P x y) ->
  forall l s s' ys, map_each l body s = (s', inr ys) -> Forall2 P l ys.
Proof.
  intros HP l. induction l as [|x l IH]; intros s s' ys H.
  - injection H as _ <-. constructor.
  - cbn [map_each] in H.
    apply bind_ok in H as (s1 & y & Hy & H).
    apply bind_ok in H as (s2 & ys' & Hys & H).
    injection H as _ <-. constructor; eauto.
Qed.

(** ** Lemmas on the stable sort *)

Lemma leb_refl (s : string) : String.leb s s = true.
Proof. destruct (String.leb_total s s); assumption. Qed.

Section Sorting.

Context {A : Type} (key : A -> string).

Lemma insert_by_perm (x : A) (l : list A) : Permutation (x :: l) (insert_by key x l).
Proof.
  induction l as [|y l IH]; simpl; [reflexivity|].
  destruct (String.leb (key x) (key y)); [reflexivity|].
  rewrite perm_swap. apply perm_skip. exact IH.
Qed.

Lemma sort_by_perm (l : list A) : Permutation l (sort_by key l).
Proof.
  induction l as [|x l IH]; simpl; [reflexivity|].
  rewrite <- insert_by_perm. apply perm_skip. exact IH.
Qed.

Lemma insert_by_sorted (x : A) (l : list A) :
  Sorted (key_le key) l -> Sorted (key_le key) (insert_by key x l).
Proof.
  induction l as [|y l IH]; simpl; intros Hs.
  - repeat constructor.
  - destruct (String.leb (key x) (key y)) eqn:E.
    + constructor; [exact Hs|]. constructor. exact E.
    + inversion Hs as [|? ? Hl Hhd]; subst.
      constructor; [apply IH; exact Hl|].
      assert (Hyx : key_le key y x).
      { unfold key_le. destruct (String.leb_total (key x) (key y)) as [H|H];
          [congruence|exact H]. }
      destruct l as [|z l]; simpl.
      * constructor. exact Hyx.
      * destruct (String.leb (key x) (key z)); constructor;
          [exact Hyx | inversion Hhd; assumption].
Qed.

Lemma sort_by_sorted (l : list A) : Sorted (key_le key) (sort_by key l).
Proof.
  induction l as [|x l IH]; simpl; [constructor|].
  apply insert_by_sorted. exact IH.
Qed.

Lemma insert_by_stable (d : string) (x : A) (l : list A) :
  filter (fun y => key y = d) (insert_by key x l) =
  filter (fun y => key y = d) (x :: l).
Proof.
  induction l as [|y l IH]; simpl; [reflexivity|].
  destruct (String.leb (key x) (key y)) eqn:E; [reflexivity|].
  rewrite (filter_cons _ y), IH, !filter_cons.
  destruct (decide (key y = d)) as [Hy|Hy], (decide (key x = d)) as [Hx|Hx];
    try reflexivity.
  rewrite Hx, Hy, leb_refl in E. discriminate.
Qed.

Lemma sort_by_stable (d : string) (l : list A) :
  filter (fun y => key y = d) (sort_by key l) = filter (fun y => key y = d) l.
Proof.
  induction l as [|x l IH]; simpl; [reflexivity|].
  rewrite insert_by_stable, !filter_cons, IH. reflexivity.
Qed.

End Sorting.

Lemma sorted_by_key_fmap {A} (key : A -> string) (l : list A) :
  Sorted (key_le id) (key <$> l) -> Sorted (key_le key) l.
Proof.
  induction l as [|x l IH]; intros H; [constructor|].
  inversion H as [|? ? Hl Hhd]; subst. constructor; [apply IH; exact Hl|].
  destruct l as [|y l]; constructor. inversion Hhd; assumption.
Qed.

(** ** Lemmas on the pipeline *)

Lemma dict_get_set_eq {V} (k : string) (v : V) (d : list (string * V)) :
  dict_get k (dict_set k v d) = Some v.
Proof.
  induction d as [|[k' v'] d IH]; simpl.
  - rewrite String.eqb_refl. reflexivity.
  - destruct (String.eqb k' k) eqn:E; simpl; rewrite E; [reflexivity|exact IH].
Qed.

Lemma dict_get_set_ne {V} (k k' : string) (v : V) (d : list (string * V)) :
  k <> k' -> dict_get k' (dict_set k v d) = dict_get k' d.
Proof.
  intros Hne. induction d as [|[k0 v0] d IH]; simpl.
  - apply String.eqb_neq in Hne. rewrite Hne. reflexivity.
  - destruct (String.eqb_spec k0 k) as [->|E]; simpl.
    + apply String.eqb_neq in Hne. rewrite Hne. reflexivity.
    + destruct (String.eqb k0 k'); [reflexivity|exact IH].
Qed.

Lemma dict_get_remove (f g : string) (d : list (string * file_entry)) :
  dict_get g (dir_remove f d) = if decide (g = f) then None else dict_get g d.
Proof.
  unfold dir_remove. induction d as [|[k v] d IH].
  - destruct (decide (g = f)); reflexivity.
  - rewrite filter_cons. cbn [fst].
    destruct (decide (k <> f)) as [Hk|Hk].
    + cbn [dict_get]. rewrite IH. destruct (String.eqb_spec k g) as [->|Hne].
      * rewrite decide_False by exact Hk. reflexivity.
      * reflexivity.
    + rewrite IH. apply dec_stable in Hk. subst k. cbn [dict_get].
      destruct (decide (g = f)) as [->|Hg]; [reflexivity|].
      destruct (String.eqb_spec f g) as [E|_]; [congruence|reflexivity].
Qed.

Lemma dict_get_names {V} (k : string) (d : list (string * V)) :
  dict_get k d = None <-> k ∉ d.*1.
Proof.
  induction d as [|[k' v] d IH]; cbn [dict_get].
  - split; [intros _ H; inversion H|reflexivity].
  - destruct (String.eqb_spec k' k) as [->|Hne].
    + split; [discriminate|]. intros H. exfalso. apply H. left.
    + rewrite IH. split.
      * intros H Hin. change (k ∈ k' :: d.*1) in Hin.
        apply elem_of_cons in Hin as [->|Hin]; [congruence|contradiction].
      * intros H Hin. apply H. right. exact Hin.
Qed.

Lemma names_set_here {V} (k : string) (v : V) (d : list (string * V)) :
  k ∈ (dict_set k v d).*1.
Proof.
  destruct (decide (k ∈ (dict_set k v d).*1)) as [H|H]; [exact H|].
  apply dict_get_names in H. rewrite dict_get_set_eq in H. discriminate.
Qed.

Lemma names_set_there {V} (k g : string) (v : V) (d : list (string * V)) :
  g ∈ d.*1 -> g ∈ (dict_set k v d).*1.
Proof.
  intros Hg. destruct (decide (g = k)) as [->|Hne]; [apply names_set_here|].
  destruct (decide (g ∈ (dict_set k v d).*1)) as [H|H]; [exact H|].
  apply dict_get_names in H. rewrite dict_get_set_ne in H by congruence.
  apply dict_get_names in H. contradiction.
Qed.

Lemma names_remove_there (f g : string) (d : list (string * file_entry)) :
  g <> f -> g ∈ d.*1 -> g ∈ (dir_remove f d).*1.
Proof.
  intros Hne Hg. destruct (decide (g ∈ (dir_remove f d).*1)) as [H|H]; [exact H|].
  apply dict_get_names in H. rewrite dict_get_remove, decide_False in H by exact Hne.
  apply dict_get_names in H. contradiction.
Qed.

Lemma names_dict_set {V} (k : string) (v : V) (d : list (string * V)) :
  (dict_set k v d).*1 =
    match dict_get k d with
    | Some _ => d.*1
    | None => (d.*1 ++ [k])%list
    end.
Proof.
  induction d as [|[k' v'] d IH]; cbn [dict_set dict_get]; [reflexivity|].
  destruct (String.eqb k' k); [reflexivity|].
  change (k' :: (dict_set k v d).*1 =
          match dict_get k d with
          | Some _ => k' :: d.*1
          | None => k' :: (d.*1 ++ [k])%list
          end).
  rewrite IH. destruct (dict_get k d); reflexivity.
Qed.

Lemma elem_of_sort_by {A} (key : A -> string) (x : A) (l : list A) :
  x ∈ sort_by key l <-> x ∈ l.
Proof. rewrite <- (sort_by_perm key l). reflexivity. Qed.

Lemma load_config_known (all_filenames : list string) (config : json)
    (existing : gset string) :
  known_photos config = inr existing ->
  list_to_set all_filenames ⊆ existing ->
  load_config all_filenames (Stored config) = inr (config, None, []).
Proof.
  unfold known_photos, load_config. intros Hk Hsub.
  destruct (py_get config "_all_photos" (JArr [])) as [e|known]; [discriminate|].
  cbn in Hk |- *. rewrite Hk. cbn.
  rewrite decide_True; [reflexivity|].
  apply subseteq_empty_difference_L. exact Hsub.
Qed.

Lemma configure_ok (files : list string) (w w' : world)
    (favorites_set : gset string) (collections_config : json) :
  configure files w = (w', inr (favorites_set, collections_config)) ->
  exists config written printed,
    load_config files (config_state w) = inr (config, written, printed) /\
    py_get config "favorites" (JArr []) ≫= py_set = inr favorites_set /\
    py_get config "collections" (JObj []) = inr collections_config /\
    w' = print printed (match written with Some c => set_config c w | None => w end).
Proof.
  unfold configure, lift_exn. se_unfold.
  destruct (load_config files (config_state w)) as [e|[[config written] printed]];
    [discriminate|].
  intros H. exists config, written, printed. split; [reflexivity|].
  destruct (py_get config "favorites" (JArr [])) as [e1|favs];
    [destruct written; discriminate|].
  cbn in H |- *. destruct (py_set favs) as [e2|fav];
    [destruct written; discriminate|].
  destruct (py_get config "collections" (JObj [])) as [e3|cols];
    [destruct written; discriminate|].
  destruct written; injection H as <- <- <-; auto.
Qed.

Lemma elem_of_link_in (n : nat) (f g : string) (names : list string) :
  g ∈ link_in n f names <-> g = f \/ g ∈ names.
Proof.
  revert n. induction names as [|x names IH]; intros n.
  - destruct n; cbn; rewrite elem_of_cons; reflexivity.
  - destruct n as [|n]; cbn [link_in]; [rewrite elem_of_cons; reflexivity|].
    rewrite !elem_of_cons, IH. tauto.
Qed.

Lemma filter_link_in (P : string -> bool) (n : nat) (f : string) (names : list string) :
  P f = false ->
  filter (fun g => P g) (link_in n f names) = filter (fun g => P g) names.
Proof.
  intros Hf. revert n. induction names as [|x names IH]; intros n.
  - destruct n; cbn [link_in]; rewrite filter_cons, decide_False;
      try reflexivity; rewrite Hf; intros [].
  - destruct n as [|n]; cbn [link_in].
    + rewrite filter_cons, decide_False; [reflexivity|]. rewrite Hf. intros [].
    + rewrite !filter_cons, IH. reflexivity.
Qed.

Lemma listing_cons (names : list string) (n : nat) (f : string)
    (links : list (nat * string)) :
  listing names ((n, f) :: links) =
    if bool_decide (f ∈ names) then listing names links
    else link_in n f (listing names links).
Proof. reflexivity. Qed.

(** The listing holds the names of the files, and beside them only names
    of broken links. *)
Lemma elem_of_listing (names : list string) (links : list (nat * string)) (g : string) :
  g ∈ listing names links <-> g ∈ names \/ g ∈ links.*2.
Proof.
  induction links as [|[n f] links IH].
  - change ((@nil (nat * string)).*2) with (@nil string).
    change (listing names []) with names. rewrite elem_of_nil. tauto.
  - change (((n, f) :: links).*2) with (f :: links.*2).
    rewrite elem_of_cons, listing_cons.
    destruct (bool_decide_reflect (f ∈ names)) as [Hf|Hf].
    + rewrite IH. split; [tauto|]. intros [H|[->|H]]; auto.
    + rewrite elem_of_link_in, IH. tauto.
Qed.

(** Names outside [P] apart, the files make up the listing when every
    listed name in [P] has a file. *)
Lemma filter_listing (P : string -> bool) (names : list string)
    (links : list (nat * string)) :
  (forall g, g ∈ listing names links -> P g = true -> g ∈ names) ->
  filter (fun g => P g) (listing names links) = filter (fun g => P g) names.
Proof.
  induction links as [|[n f] links IH]; [reflexivity|].
  rewrite listing_cons. intros H.
  destruct (bool_decide_reflect (f ∈ names)) as [Hf|Hf]; [exact (IH H)|].
  rewrite filter_link_in.
  - apply IH. intros g Hg. apply H, elem_of_link_in. right. exact Hg.
  - destruct (P f) eqn:Pf; [|reflexivity]. exfalso. apply Hf, H; [|exact Pf].
    apply elem_of_link_in. left. reflexivity.
Qed.

Lemma listdir_files (w : world) (f : string) :
  f ∈ (the_dir w).*1 -> f ∈ listdir w.
Proof. intros H. apply elem_of_listing. left. exact H. Qed.

(** [process] makes a record only of a name that has a file: without one
    there is no date in the metadata, and no modification time either. *)
Lemma process_needs_file (favorites_set : gset string) (collections_config : json)
    (f : string) (w w' : world) (p : photo) :
  process favorites_set collections_config f w = (w', inr p) ->
  f ∈ (the_dir w).*1 /\ the_dir w' = the_dir w.
Proof.
  intros H. apply process_ok in H as (-> & cats & _ & H). split; [|reflexivity].
  destruct (decide (f ∈ (the_dir w).*1)) as [Hin|Hout]; [exact Hin|].
  apply dict_get_names in Hout. rewrite Hout in H.
  destruct H as [[T _]|(_ & e & He & _)]; discriminate.
Qed.

Lemma map_each_process_files (favorites_set : gset string) (collections_config : json)
    (files : list string) (w w' : world) (photos : list photo) :
  map_each files (process favorites_set collections_config) w = (w', inr photos) ->
  Forall (fun f => f ∈ (the_dir w).*1) files /\ the_dir w' = the_dir w.
Proof.
  revert w photos. induction files as [|f files IH]; intros w photos H.
  - injection H as <- _. split; [constructor|reflexivity].
  - cbn [map_each] in H.
    apply bind_ok in H as (w1 & p & Hp & H).
    apply bind_ok in H as (w2 & ps & Hps & H). injection H as <- _.
    apply process_needs_file in Hp as [Hf Hd].
    apply IH in Hps as [Hfs Hd']. rewrite Hd in Hfs, Hd'.
    split; [constructor; assumption|exact Hd'].
Qed.

Lemma configure_dir (files : list string) (w w' : world)
    (favorites_set : gset string) (collections_config : json) :
  configure files w = (w', inr (favorites_set, collections_config)) ->
  the_dir w' = the_dir w /\ listdir w' = listdir w.
Proof.
  intros H. apply configure_ok in H as (config & written & printed & _ & _ & _ & ->).
  destruct written; split; reflexivity.
Qed.

(** The stages of a run that completes. *)
Lemma main_stages (w w' : world) :
  main w = (w', inr tt) ->
  exists d w1 w2 w3 favorites_set collections_config photos,
    photos_dir w = Some d /\
    convert_all (listdir w) w = (w1, inr tt) /\
    configure (supported_names (listdir w1)) w1
      = (w2, inr (favorites_set, collections_config)) /\
    map_each (supported_names (listdir w1)) (process favorites_set collections_config) w2
      = (w3, inr photos) /\
    emit (sort_by pdate photos) w3 = (w', inr tt).
Proof.
  unfold main. intros H.
  apply bind_ok in H as (w0 & dir & Hdir & H). injection Hdir as <- <-.
  destruct (photos_dir w) as [d|] eqn:Ed.
  - apply bind_ok in H as (w0 & names & Hn & H). injection Hn as <- <-.
    apply bind_ok in H as (w1 & [] & Hc & H).
    apply bind_ok in H as (w1' & names1 & Hn1 & H). injection Hn1 as <- <-.
    apply bind_ok in H as (w2 & [fav cols] & Hconf & H).
    apply bind_ok in H as (w3 & photos & Hmap & H).
    exists d, w1, w2, w3, fav, cols, photos. auto.
  - apply bind_ok in H as (w1 & [] & _ & H). discriminate.
Qed.

(** In a run that completes every name the scan found has a file behind
    it, or [os.path.getmtime] would have ended the run: the scan is the
    scan of the files. *)
Lemma main_ok (w w' : world) :
  main w = (w', inr tt) ->
  exists d w1 w2 w3 favorites_set collections_config photos,
    photos_dir w = Some d /\
    convert_all (listdir w) w = (w1, inr tt) /\
    configure (scan (the_dir w1)) w1 = (w2, inr (favorites_set, collections_config)) /\
    map_each (scan (the_dir w1)) (process favorites_set collections_config) w2
      = (w3, inr photos) /\
    emit (sort_by pdate photos) w3 = (w', inr tt).
Proof.
  intros H.
  apply main_stages in H
    as (d & w1 & w2 & w3 & fav & cols & photos & Hd & Hc & Hconf & Hmap & He).
  assert (Hscan : supported_names (listdir w1) = scan (the_dir w1)).
  { unfold scan, supported_names, listdir. f_equal. apply filter_listing.
    intros g Hg Pg. apply configure_dir in Hconf as [Hdir _].
    apply map_each_process_files in Hmap as [Hall _]. rewrite Hdir in Hall.
    rewrite Forall_forall in Hall. apply Hall.
    unfold supported_names, sorted. apply elem_of_sort_by.
    apply list_elem_of_filter. split; [rewrite Pg; exact I|exact Hg]. }
  rewrite Hscan in Hconf, Hmap.
  exists d, w1, w2, w3, fav, cols, photos. auto.
Qed.

Lemma emit_eq (photos : list photo) (w : world) :
  json_writable (machine w) = true ->
  js_writable (machine w) = true ->
  unicode_console (machine w) = true ->
  emit photos w =
    (print [Summary (length photos) (fav_count photos) (col_counts photos)]
       (set_output_js photos
          (set_dir (dict_set OUTPUT_JSON
                      {| content_of := Manifest photos; mtime := now w |} (the_dir w)) w)),
     inr tt).
Proof.
  intros H1 H2 H3. unfold emit, open_w. se_unfold. rewrite H1.
  change (machine (set_dir ?d w)) with (machine w). rewrite H2.
  change (machine (set_output_js ?l ?v)) with (machine w). rewrite H3. reflexivity.
Qed.

(** [emit] completes on a machine that refuses nothing, and only there. *)
Lemma emit_willing (photos : list photo) (w w' : world) :
  emit photos w = (w', inr tt) ->
  json_writable (machine w) = true /\ js_writable (machine w) = true /\
  unicode_console (machine w) = true.
Proof.
  unfold emit, open_w. se_unfold.
  destruct (json_writable (machine w)); [|discriminate].
  change (machine (set_dir ?d w)) with (machine w).
  destruct (js_writable (machine w)); [|discriminate].
  change (machine (set_output_js ?l ?v)) with (machine w).
  destruct (unicode_console (machine w)); [|discriminate]. auto.
Qed.

Lemma emit_done (photos : list photo) (w w' : world) :
  emit photos w = (w', inr tt) ->
  w' = print [Summary (length photos) (fav_count photos) (col_counts photos)]
         (set_output_js photos
            (set_dir (dict_set OUTPUT_JSON
                        {| content_of := Manifest photos; mtime := now w |} (the_dir w)) w)).
Proof.
  intros H. destruct (emit_willing _ _ _ H) as (H1 & H2 & H3).
  rewrite (emit_eq _ _ H1 H2 H3) in H. injection H as <-. reflexivity.
Qed.

Lemma emit_ok (photos : list photo) (w w' : world) :
  emit photos w = (w', inr tt) ->
  manifest w' = Some photos /\ output_js w' = Some photos /\
  config_state w' = config_state w.
Proof.
  intros H. apply emit_done in H as ->.
  unfold manifest. cbn. rewrite dict_get_set_eq. auto.
Qed.

Lemma process_file (favorites_set : gset string) (collections_config : json)
    (f : string) (w w' : world) (p : photo) :
  process favorites_set collections_config f w = (w', inr p) -> file p = f.
Proof.
  intros H. apply process_ok in H as (_ & cats & _ & [[_ ->]|(_ & e & _ & ->)]);
    reflexivity.
Qed.

Lemma process_dated (favorites_set : gset string) (collections_config : json)
    (f : string) (w w' : world) (p : photo) :
  process favorites_set collections_config f w = (w', inr p) ->
  pdate p <> EmptyString.
Proof.
  intros H. apply process_ok in H as (_ & cats & _ & [[T ->]|(_ & e & _ & ->)]);
    cbn [pdate photo_of].
  - rewrite T. destruct (date _) as [[|c s]|]; discriminate.
  - destruct (truthy (date _)) eqn:T.
    + destruct (date _) as [[|c s]|]; discriminate.
    + pose proof (isoformat_truthy (mtime e)) as Hi.
      destruct (isoformat (mtime e)); [discriminate Hi|discriminate].
Qed.

Lemma files_of_photos (files : list string) (photos : list photo) :
  Forall2 (fun f p => file p = f) files photos -> file <$> photos = files.
Proof.
  induction 1 as [|f p fs ps Hp _ IH]; [reflexivity|].
  simpl. rewrite Hp. f_equal. exact IH.
Qed.

Lemma Forall2_right {A B} (P : B -> Prop) (l : list A) (k : list B) :
  Forall2 (fun _ y => P y) l k -> Forall P k.
Proof. induction 1; constructor; assumption. Qed.

Lemma sorted_sorted (l : list string) : Sorted (key_le id) (sorted l).
Proof. apply sort_by_sorted. Qed.

(** ** The order of the manifest *)

(** C6.  The manifest a run writes is the list of records, made in file
    name order, sorted by date: it ascends by the date text, records with
    equal dates keep the order they had before the sort, and every record
    has a date. *)
Theorem C6_manifest_sorted_stable (w w' : world) :
  main w = (w', inr tt) ->
  exists photos : list photo,
    manifest w' = Some (sort_by pdate photos) /\
    output_js w' = Some (sort_by pdate photos) /\
    Sorted (key_le file) photos /\
    Sorted (key_le pdate) (sort_by pdate photos) /\
    Permutation photos (sort_by pdate photos) /\
    (forall d, filter (fun p => pdate p = d) (sort_by pdate photos)
               = filter (fun p => pdate p = d) photos) /\
    Forall (fun p => pdate p <> EmptyString) (sort_by pdate photos).
Proof.
  intros H.
  apply main_ok in H as (d & w1 & w2 & w3 & fav & cols & photos & _ & _ & _ & Hmap & He).
  apply emit_ok in He as (Hm & Hjs & _).
  exists photos. split; [exact Hm|]. split; [exact Hjs|].
  split.
  { apply sorted_by_key_fmap.
    assert (Hf : file <$> photos = scan (the_dir w1)).
    { pose proof (map_each_ok (fun f p => file p = f) _
                    (process_file fav cols) _ _ _ _ Hmap) as HF.
      apply files_of_photos. exact HF. }
    rewrite Hf. apply sorted_sorted. }
  split; [apply sort_by_sorted|].
  split; [apply sort_by_perm|].
  split; [intros d0; apply sort_by_stable|].
  assert (HD : Forall (fun p => pdate p <> EmptyString) photos).
  { pose proof (map_each_ok (fun _ p => pdate p <> EmptyString) _
                  (process_dated fav cols) _ _ _ _ Hmap) as HF.
    apply (Forall2_right _ _ _ HF). }
  rewrite Forall_forall in *. intros p Hp. apply HD.
  rewrite <- (sort_by_perm pdate photos) in Hp. exact Hp.
Qed.

Lemma C6_witness :
  main demo_world = (demo_final, inr tt) /\
  manifest demo_final = Some demo_manifest /\
  Sorted (key_le pdate) demo_manifest.
Proof.
  assert (H : main demo_world = (demo_final, inr tt)) by (vm_compute; reflexivity).
  split; [exact H|].
  destruct (C6_manifest_sorted_stable demo_world demo_final H)
    as (photos & Hm & _ & _ & Hs & _).
  assert (E : sort_by pdate photos = demo_manifest).
  { assert (Hd : manifest demo_final = Some demo_manifest) by (vm_compute; reflexivity).
    congruence. }
  rewrite E in *. split; assumption.
Defined.

(** ** The categories of a record *)

Lemma collect_names (f : string) (items : list (string * json)) (cats cats' : list string) :
  collect f items cats = inr cats' ->
  cats' = (cats ++ (filter (fun kv => py_in f kv.2 = inr true) items).*1)%list.
Proof.
  revert cats. induction items as [|[name files] items IH]; intros cats H.
  - injection H as <-. rewrite app_nil_r. reflexivity.
  - cbn [collect] in H. rewrite filter_cons. cbn [snd].
    destruct (py_in f files) as [e|[]]; [discriminate| |].
    + apply IH in H. rewrite decide_True by reflexivity.
      rewrite H, <- app_assoc. reflexivity.
    + apply IH in H. rewrite decide_False by discriminate. exact H.
Qed.

Lemma collect_lists (f : string) (collections : list (string * list json))
    (cats : list string) :
  collect f (collection_items collections) cats =
    inr (cats ++ (filter (fun kv => f ∈ texts_of kv.2) collections).*1)%list.
Proof.
  revert cats. induction collections as [|[name l] cs IH]; intros cats.
  - simpl. rewrite app_nil_r. reflexivity.
  - cbn [collection_items fmap list_fmap collect fst snd py_in].
    change (collect f (collection_items cs)
              (if bool_decide (f ∈ texts_of l) then cats ++ [name] else cats) =
            inr (cats ++ (filter (fun kv => f ∈ texts_of kv.2) ((name, l) :: cs)).*1)%list).
    rewrite IH, filter_cons. cbn [snd].
    destruct (decide (f ∈ texts_of l)) as [Hin|Hin].
    + rewrite bool_decide_eq_true_2 by exact Hin.
      rewrite <- app_assoc. reflexivity.
    + rewrite bool_decide_eq_false_2 by exact Hin. reflexivity.
Qed.

Lemma py_set_list (l : list json) (s : gset string) (f : string) :
  py_set (JArr l) = inr s -> f ∈ s <-> f ∈ texts_of l.
Proof.
  simpl. destruct (forallb hashable l); [|discriminate].
  intros [= <-]. apply elem_of_list_to_set.
Qed.

(** C7.  With the favourites in a list and every collection a list, the
    categories of a record are "favorites", when the file is a favourite,
    followed by the names of the collections that list the file, in the
    order of the collection mapping; the field is absent when that list is
    empty. *)
Theorem C7_categories_field
    (favorites : list json) (collections : list (string * list json))
    (favorites_set : gset string) (f : string) (w w' : world) (p : photo) :
  py_set (JArr favorites) = inr favorites_set ->
  process favorites_set (JObj (collection_items collections)) f w = (w', inr p) ->
  categories p =
    match spec_categories favorites collections f with
    | [] => None
    | cats => Some cats
    end.
Proof.
  intros Hfav Hp.
  apply process_ok in Hp as (_ & cats & Hcats & Hp).
  assert (Ec : cats = spec_categories favorites collections f).
  { unfold categories_of in Hcats. rewrite collect_lists in Hcats.
    injection Hcats as <-. unfold spec_categories. f_equal.
    destruct (decide (f ∈ favorites_set)) as [Hin|Hin].
    - rewrite !bool_decide_eq_true_2; [reflexivity| |exact Hin].
      apply (py_set_list _ _ _ Hfav). exact Hin.
    - rewrite !bool_decide_eq_false_2; [reflexivity| |exact Hin].
      intros Hin'. apply Hin, (py_set_list _ _ _ Hfav). exact Hin'. }
  destruct Hp as [[_ ->]|(_ & e & _ & ->)]; cbn [categories photo_of];
    rewrite Ec; destruct (spec_categories favorites collections f); reflexivity.
Qed.

(** The specification's example: [a.jpg] gets "favorites" and "flowers",
    [b.jpg] gets "flowers", [c.jpg] gets no categories field. *)
Lemma C7_witness :
  categories demo_a = Some ["favorites"; "flowers"] /\
  categories demo_b = Some ["flowers"] /\
  categories demo_c = None.
Proof.
  assert (Hfav : py_set (JArr demo_favorites) = inr (list_to_set ["a.jpg"]))
    by reflexivity.
  pose (cols := JObj (collection_items demo_collections)).
  assert (Ha : process (list_to_set ["a.jpg"]) cols "a.jpg" demo_world
               = (demo_world, inr demo_a)) by (vm_compute; reflexivity).
  assert (Hb : process (list_to_set ["a.jpg"]) cols "b.jpg" demo_world
               = (demo_world, inr demo_b)) by (vm_compute; reflexivity).
  assert (Hc : process (list_to_set ["a.jpg"]) cols "c.jpg" demo_world
               = (demo_world, inr demo_c)) by (vm_compute; reflexivity).
  split; [|split].
  - exact (C7_categories_field demo_favorites demo_collections _ _ _ _ _ Hfav Ha).
  - exact (C7_categories_field demo_favorites demo_collections _ _ _ _ _ Hfav Hb).
  - exact (C7_categories_field demo_favorites demo_collections _ _ _ _ _ Hfav Hc).
Defined.

Lemma favorites_count_app (l k : list string) :
  favorites_count (l ++ k) = (favorites_count l + favorites_count k)%nat.
Proof. unfold favorites_count. rewrite filter_app, length_app. reflexivity. Qed.

(** C10 (as amended).  However often the favourites list repeats a file
    name, the record of that file names "favorites" exactly once when the
    file is a favourite and never otherwise, provided no collection that
    lists the file is itself named "favorites". *)
Theorem C10_favorites_at_most_once
    (favorites : list json) (favorites_set : gset string)
    (items : list (string * json)) (f : string) (cats : list string) :
  py_set (JArr favorites) = inr favorites_set ->
  categories_of favorites_set (JObj items) f = inr cats ->
  (forall name files, (name, files) ∈ items -> py_in f files = inr true ->
                      name <> "favorites") ->
  favorites_count cats = (if bool_decide (f ∈ texts_of favorites) then 1 else 0)%nat.
Proof.
  intros Hfav Hcats Hnames. unfold categories_of in Hcats.
  apply collect_names in Hcats. subst cats. rewrite favorites_count_app.
  assert (Hz : favorites_count
                 (filter (fun kv => py_in f kv.2 = inr true) items).*1 = 0%nat).
  { clear Hfav. induction items as [|[name files] items IH]; [reflexivity|].
    rewrite filter_cons. cbn [snd].
    assert (IH' : favorites_count
                    (filter (fun kv => py_in f kv.2 = inr true) items).*1 = 0%nat).
    { apply IH. intros n fs Hin. apply Hnames. right. exact Hin. }
    destruct (decide (py_in f files = inr true)) as [Hin|Hin]; [|exact IH'].
    cbn [fmap list_fmap fst]. unfold favorites_count in *. rewrite filter_cons.
    rewrite decide_False; [exact IH'|].
    apply (Hnames name files); [left|exact Hin]. }
  rewrite Hz, Nat.add_0_r.
  destruct (decide (f ∈ favorites_set)) as [Hin|Hin].
  - rewrite !bool_decide_eq_true_2; [reflexivity| |exact Hin].
    apply (py_set_list _ _ _ Hfav). exact Hin.
  - rewrite !bool_decide_eq_false_2; [reflexivity| |exact Hin].
    intros Hin'. apply Hin, (py_set_list _ _ _ Hfav). exact Hin'.
Qed.

Lemma C10_witness :
  categories_of (list_to_set ["a.jpg"; "a.jpg"])
    (JObj (collection_items demo_collections)) "a.jpg" = inr ["favorites"; "flowers"] /\
  favorites_count ["favorites"; "flowers"] = 1%nat.
Proof.
  assert (Hc : categories_of (list_to_set ["a.jpg"; "a.jpg"])
                 (JObj (collection_items demo_collections)) "a.jpg"
               = inr ["favorites"; "flowers"]) by (vm_compute; reflexivity).
  split; [exact Hc|].
  apply (C10_favorites_at_most_once [JStr "a.jpg"; JStr "a.jpg"]
           (list_to_set ["a.jpg"; "a.jpg"])
           (collection_items demo_collections) "a.jpg" _ eq_refl Hc).
  intros name files Hin _.
  apply list_elem_of_singleton in Hin. injection Hin as -> _. discriminate.
Defined.

(** C10 as the specification states it fails: the favourites list names
    [a.jpg] twice, a collection named "favorites" lists it too, and the
    record of [a.jpg] names "favorites" twice. *)
Lemma C10_counterexample :
  manifest (main c10_world).1 =
    Some [ {| file := "a.jpg"; pdate := "2021-03-04T05:06:07"; pgeo := None;
              categories := Some ["favorites"; "favorites"] |} ] /\
  favorites_count ["favorites"; "favorites"] = 2%nat.
Proof. split; vm_compute; reflexivity. Qed.

(** ** The configuration file *)

Lemma load_config_new (all_filenames : list string) (d : list (string * json))
    (existing : gset string) :
  known_photos (JObj d) = inr existing ->
  ¬ list_to_set all_filenames ⊆ existing ->
  let current : gset string := list_to_set all_filenames in
  let config' := JObj (dict_set "_all_photos"
                         (JArr (JStr <$> sorted (elements current))) d) in
  load_config all_filenames (Stored (JObj d))
    = inr (config', Some config', [Config_added (size (current ∖ existing))]).
Proof.
  unfold known_photos, load_config. intros Hk Hsub. cbn in Hk |- *.
  rewrite Hk. cbn. rewrite decide_False; [reflexivity|].
  intros Hempty. apply Hsub, empty_difference_subseteq_L. exact Hempty.
Qed.

(** C2, at the failing input.  The configuration knows [old.jpg], whose
    file is gone, and the scan finds [new.jpg].  [load_config] reports one
    photo added to [_all_photos] and writes the list of the current scan:
    [old.jpg] is lost, where the sorted union of the known and the
    discovered names keeps it.  On the path without a new file the stale
    name stays: when the scan finds nothing, the configuration is
    returned as read and nothing is written. *)
Theorem C2_known_name_dropped :
  known_photos c2_config = inr (list_to_set ["old.jpg"]) /\
  load_config ["new.jpg"] (Stored c2_config)
    = inr (c2_updated, Some c2_updated, [Config_added 1]) /\
  entry "_all_photos" c2_updated = Some (JArr [JStr "new.jpg"]) /\
  spec_all_photos (list_to_set ["old.jpg"]) ["new.jpg"] = ["new.jpg"; "old.jpg"] /\
  load_config [] (Stored c2_config) = inr (c2_config, None, []).
Proof.
  split; [reflexivity|]. split; [vm_compute; reflexivity|].
  split; [reflexivity|]. split; vm_compute; reflexivity.
Qed.

(** ** What a run leaves untouched *)

Section Steps.

Context (R : world -> world -> Prop) `{!PreOrder R}.

Lemma steps_bind {A B} (c : Run A) (f : A -> Run B) :
  steps R c -> (forall x, steps R (f x)) -> steps R (c ≫= f).
Proof.
  intros Hc Hf w. unfold mbind, se_bind.
  pose proof (Hc w) as H1. destruct (c w) as [w1 [e|x]]; [exact H1|].
  etransitivity; [exact H1|apply Hf].
Qed.

Lemma steps_ret {A} (x : A) : steps R (mret x).
Proof. intros w. reflexivity. Qed.

Lemma steps_gets {A} (g : world -> A) : steps R (gets g).
Proof. intros w. reflexivity. Qed.

Lemma steps_lift {A} (x : abort + A) : steps R (lift x).
Proof. intros w. reflexivity. Qed.

Lemma steps_lift_exn {A} (x : py_exn + A) : steps R (lift_exn x).
Proof. intros w. reflexivity. Qed.

Lemma steps_raise {A} (e : abort) : steps R (raise e : Run A).
Proof. intros w. reflexivity. Qed.

Lemma steps_update (f : world -> world) :
  (forall w, R w (f w)) -> steps R (update f).
Proof. intros Hf w. apply Hf. Qed.

Lemma steps_for_each {A} (l : list A) (body : A -> Run unit) :
  (forall x, steps R (body x)) -> steps R (for_each l body).
Proof.
  intros Hb. induction l as [|x l IH]; cbn [for_each].
  - apply steps_ret.
  - apply steps_bind; [apply Hb|intros _; exact IH].
Qed.

Lemma steps_map_each {A B} (l : list A) (body : A -> Run B) :
  (forall x, steps R (body x)) -> steps R (map_each l body).
Proof.
  intros Hb. induction l as [|x l IH]; cbn [map_each].
  - apply steps_ret.
  - apply steps_bind; [apply Hb|intros y].
    apply steps_bind; [exact IH|intros ys]. apply steps_ret.
Qed.

End Steps.

#[global] Instance kept_preorder {X} (g : world -> X) : PreOrder (kept g).
Proof.
  split.
  - intros w. reflexivity.
  - intros w1 w2 w3 H12 H23. unfold kept in *. congruence.
Qed.

#[global] Instance same_assignments_preorder : PreOrder same_assignments.
Proof.
  split.
  - intros w. unfold same_assignments. destruct (config_state w); eauto.
  - intros w1 w2 w3 H12 H23. unfold same_assignments in *.
    destruct (config_state w1) as [| |c1]; [exact I|exact I|].
    destruct H12 as (c2 & E2 & H12). rewrite E2 in H23.
    destruct H23 as (c3 & E3 & H23). exists c3. split; [exact E3|].
    intros key Hk. rewrite H23, H12 by exact Hk. reflexivity.
Qed.

Ltac steps_bind_tac :=
  apply steps_bind; [typeclasses eauto | | intros ?].

Tactic Notation "steps_bind_as" simple_intropattern(x) :=
  apply steps_bind; [typeclasses eauto | | intros x].

Ltac steps_auto :=
  repeat first
    [ apply steps_ret; typeclasses eauto
    | apply steps_gets; typeclasses eauto
    | apply steps_lift_exn; typeclasses eauto
    | apply steps_lift; typeclasses eauto
    | apply steps_raise; typeclasses eauto
    | apply steps_update; intros ?; first [reflexivity | solve [unfold kept; auto]]
    | steps_bind_tac ].

Section Kept.

Context {X : Type} (g : world -> X).

Hypothesis g_print : forall es w, g (print es w) = g w.

Lemma convert_kept (f : string) :
  (forall d w, g (set_dir d w) = g w) ->
  steps (kept g) (convert_heic_to_jpeg f).
Proof.
  intros g_dir. unfold convert_heic_to_jpeg. steps_bind_as heif; [steps_auto|].
  destruct heif; cbn [negb]; [|steps_auto].
  steps_bind_tac; [steps_auto|].
  steps_bind_as entry; [unfold lookup_file; steps_auto|].
  steps_bind_as t; [steps_auto|]. steps_bind_as d; [steps_auto|].
  destruct (jpeg_of (content_of entry)) as [e|img]; [|steps_auto].
  steps_bind_tac; [|steps_auto].
  destruct (left_of (content_of entry)) as [rest|]; [|steps_auto].
  destruct (dict_get _ d); steps_auto.
Qed.

Lemma convert_all_kept (names : list string) :
  (forall d w, g (set_dir d w) = g w) ->
  steps (kept g) (convert_all names).
Proof.
  intros g_dir. apply steps_for_each; [typeclasses eauto|].
  intros f. destruct (is_heic f); [|steps_auto].
  steps_bind_tac; [apply convert_kept; exact g_dir|steps_auto].
Qed.

Lemma process_kept (favorites_set : gset string) (collections_config : json)
    (f : string) :
  steps (kept g) (process favorites_set collections_config f).
Proof.
  unfold process. steps_bind_tac; [steps_auto|].
  destruct (extract_exif f _) as [exif diagnostics].
  steps_bind_tac; [steps_auto|].
  steps_bind_tac; [|steps_auto].
  destruct (truthy (date exif)); steps_auto.
Qed.

Lemma configure_kept (files : list string) :
  (forall c w, g (set_config c w) = g w) ->
  steps (kept g) (configure files).
Proof.
  intros g_config. unfold configure. steps_bind_as cf; [steps_auto|].
  steps_bind_as [[config written] printed]; [steps_auto|].
  steps_bind_tac; [destruct written; steps_auto|]. steps_auto.
Qed.

Lemma emit_kept (photos : list photo) :
  (forall d w, g (set_dir d w) = g w) ->
  (forall l w, g (set_output_js l w) = g w) ->
  steps (kept g) (emit photos).
Proof.
  intros g_dir g_js. unfold emit, open_w.
  steps_bind_tac; [steps_bind_as h; [steps_auto|]; destruct (json_writable h); steps_auto|].
  steps_bind_as t; [steps_auto|]. steps_bind_as d; [steps_auto|].
  steps_bind_tac; [steps_auto|].
  steps_bind_tac; [steps_bind_as h; [steps_auto|]; destruct (js_writable h); steps_auto|].
  steps_bind_tac; [steps_auto|].
  steps_bind_as h; [steps_auto|]. destruct (unicode_console h); steps_auto.
Qed.

End Kept.

Lemma kept_same_assignments {A} (c : Run A) :
  steps (kept config_state) c -> steps same_assignments c.
Proof.
  intros H w. specialize (H w). unfold kept in H. unfold same_assignments.
  rewrite H. destruct (config_state w); eauto.
Qed.

Lemma load_config_fails (all_filenames : list string) (config : json) (e : py_exn) :
  known_photos config = inl e ->
  load_config all_filenames (Stored config) = inl e.
Proof.
  unfold known_photos, load_config. intros Hk.
  destruct (py_get config "_all_photos" (JArr [])) as [e'|known];
    cbn in Hk |- *; [injection Hk as ->; reflexivity|].
  rewrite Hk. reflexivity.
Qed.

Lemma known_photos_dict (config : json) (existing : gset string) :
  known_photos config = inr existing -> exists d, config = JObj d.
Proof. destruct config; try discriminate. eauto. Qed.

Lemma load_config_inv (all_filenames : list string) (cf : config_file)
    (config : json) (written : option json) (printed : list event) :
  load_config all_filenames cf = inr (config, written, printed) ->
  (cf = Missing /\ config = default_config all_filenames /\ written = Some config) \/
  (exists existing,
     cf = Stored config /\ known_photos config = inr existing /\
     list_to_set all_filenames ⊆ existing /\ written = None) \/
  (exists d existing,
     cf = Stored (JObj d) /\ known_photos (JObj d) = inr existing /\
     ¬ list_to_set all_filenames ⊆ existing /\
     config = JObj (dict_set "_all_photos"
                (JArr (JStr <$> sorted (elements (list_to_set all_filenames : gset string)))) d) /\
     written = Some config).
Proof.
  intros H. destruct cf as [| |c].
  - injection H as <- <- _. left. auto.
  - discriminate.
  - right. destruct (known_photos c) as [e|existing] eqn:Hk.
    { rewrite (load_config_fails _ _ _ Hk) in H. discriminate. }
    destruct (decide (list_to_set all_filenames ⊆ existing)) as [Hsub|Hnew].
    + rewrite (load_config_known _ _ _ Hk Hsub) in H. injection H as <- <- _.
      left. exists existing. auto.
    + destruct (known_photos_dict _ _ Hk) as [d ->].
      rewrite (load_config_new _ _ _ Hk Hnew) in H. injection H as <- <- _.
      right. exists d, existing. auto.
Qed.

Lemma configure_world (files : list string) (w : world) :
  (configure files w).1 =
    match load_config files (config_state w) with
    | inr (_, written, printed) =>
        print printed (match written with Some c => set_config c w | None => w end)
    | inl _ => w
    end.
Proof.
  unfold configure, lift_exn. se_unfold.
  destruct (load_config files (config_state w)) as [e|[[config written] printed]];
    [reflexivity|].
  destruct written as [c|]; cbn [id];
    (destruct (py_get config "favorites" (JArr [])) as [e1|favs]; [reflexivity|]);
    cbn; (destruct (py_set favs) as [e2|fav]; [reflexivity|]);
    (destruct (py_get config "collections" (JObj [])) as [e3|cols]; reflexivity).
Qed.

Lemma configure_assignments (files : list string) :
  steps same_assignments (configure files).
Proof.
  intros w. rewrite configure_world. unfold same_assignments.
  destruct (config_state w) as [| |c] eqn:Ec; [exact I|exact I|].
  destruct (load_config files (Stored c)) as [e|[[config written] printed]] eqn:L.
  { rewrite Ec. exists c. auto. }
  apply load_config_inv in L as [(? & _)|[(ex & _ & _ & _ & ->)|(d & ex & [= ->] & _ & _ & -> & ->)]];
    [discriminate| |].
  - exists c. cbn. auto.
  - eexists. split; [reflexivity|]. intros key Hk. cbn [entry].
    apply dict_get_set_ne. congruence.
Qed.

Lemma main_assignments : steps same_assignments main.
Proof.
  unfold main. steps_bind_as [d|]; [steps_auto| |].
  - steps_bind_as names; [steps_auto|].
    steps_bind_tac; [apply kept_same_assignments, convert_all_kept; reflexivity|].
    steps_bind_as names1; [steps_auto|].
    steps_bind_as [fav cols]; [apply configure_assignments|].
    steps_bind_tac.
    + apply kept_same_assignments, steps_map_each; [typeclasses eauto|].
      intros f. apply process_kept. reflexivity.
    + apply kept_same_assignments, emit_kept; reflexivity.
  - apply kept_same_assignments. steps_auto.
Qed.

(** C8.  A run over an existing configuration leaves in the file the
    values it held under every key other than [_all_photos], so favorites
    and collections are as they were, however the run ends; [load_config]
    writes either nothing or the configuration it returns, which differs
    from the one read at most under [_all_photos], and it writes nothing
    when every discovered name was already known. *)
Theorem C8_only_all_photos_changes (w : world) (config : json) :
  config_state w = Stored config ->
  (exists config',
     config_state (main w).1 = Stored config' /\
     forall key, key <> "_all_photos" -> entry key config' = entry key config) /\
  (forall files config' written printed,
     load_config files (Stored config) = inr (config', written, printed) ->
     (forall key, key <> "_all_photos" -> entry key config' = entry key config) /\
     (written = None \/ written = Some config') /\
     (forall existing, known_photos config = inr existing ->
                       list_to_set files ⊆ existing ->
                       written = None /\ config' = config)).
Proof.
  intros Hc. split.
  - pose proof (main_assignments w) as H. unfold same_assignments in H.
    rewrite Hc in H. exact H.
  - intros files config' written printed L.
    pose proof L as L'.
    apply load_config_inv in L' as [(? & _)|[(ex & [= ->] & Hk & Hsub & ->)|(d & ex & [= ->] & Hk & Hnew & -> & ->)]];
      [discriminate| |].
    + split; [auto|]. split; [auto|]. auto.
    + split; [|split; [auto|]].
      * intros key Hkey. cbn [entry]. apply dict_get_set_ne. congruence.
      * intros existing Hk' Hsub. rewrite Hk in Hk'. injection Hk' as ->.
        contradiction.
Qed.

Lemma C8_witness :
  config_state (main c8_world).1 = Stored c2_updated /\
  entry "favorites" c2_updated = entry "favorites" c2_config /\
  entry "collections" c2_updated = entry "collections" c2_config.
Proof.
  assert (Hs : config_state (main c8_world).1 = Stored c2_updated)
    by (vm_compute; reflexivity).
  split; [exact Hs|].
  destruct (C8_only_all_photos_changes c8_world c2_config eq_refl)
    as [(config' & Hs' & Hkeys) _].
  rewrite Hs in Hs'. injection Hs' as <-.
  split; apply Hkeys; discriminate.
Defined.

(** ** Conversion of HEIC files *)

(** C3, at the failing input.  With a HEIC file that Pillow cannot
    decode, [convert_heic_to_jpeg] raises, nothing in [main] catches the
    exception, and the run ends there: the good file beside it gets no
    record and no output is written.  The same unreadable bytes under a
    JPEG name go through [extract_exif], whose [except] clause lets the
    run complete. *)
Theorem C3_corrupt_heic_aborts_run :
  main c3_world = (print [Heic_converting "bad.heic"] c3_world, inl (Uncaught OSError)) /\
  manifest (main c3_world).1 = None /\
  output_js (main c3_world).1 = None /\
  (main c3_sibling).2 = inr tt /\
  file <$> default [] (manifest (main c3_sibling).1) = ["bad.jpg"; "good.jpg"].
Proof. repeat split; vm_compute; reflexivity. Qed.

Lemma split_last_dot_jpeg (root : string) :
  split_last_dot (root ++ ".jpeg") = Some (root, ".jpeg").
Proof.
  induction root as [|c r IH]; [reflexivity|].
  change (String c r ++ ".jpeg") with (String c (r ++ ".jpeg")).
  cbn [split_last_dot]. rewrite IH. reflexivity.
Qed.

Lemma splitext_ext (f : string) :
  (splitext f).2 <> EmptyString -> all_dots (splitext f).1 = false.
Proof.
  unfold splitext. destruct (split_last_dot f) as [[root ext]|]; [|intros []; reflexivity].
  destruct (all_dots root) eqn:E; [intros []; reflexivity|]. intros _. exact E.
Qed.

Lemma converted_not_heic (f : string) :
  is_heic f = true -> is_heic ((splitext f).1 ++ ".jpeg") = false.
Proof.
  intros H. assert (Hext : (splitext f).2 <> EmptyString).
  { intros E. unfold is_heic in H. rewrite E in H. vm_compute in H. discriminate. }
  apply splitext_ext in Hext. clear H.
  set (root := (splitext f).1) in *. clearbody root.
  unfold is_heic, splitext. rewrite split_last_dot_jpeg, Hext. reflexivity.
Qed.

Lemma elem_of_names_set {V} (k g : string) (v : V) (d : list (string * V)) :
  g ∈ (dict_set k v d).*1 -> g = k \/ g ∈ d.*1.
Proof.
  induction d as [|[k' v'] d IH]; simpl.
  - intros H. apply list_elem_of_singleton in H. auto.
  - destruct (String.eqb_spec k' k) as [->|Hne]; simpl.
    + intros H. right. exact H.
    + intros H. apply elem_of_cons in H as [->|H].
      * right. left.
      * destruct (IH H) as [->|H']; [left; reflexivity|right; right; exact H'].
Qed.

Lemma elem_of_names_remove (f g : string) (d : list (string * file_entry)) :
  g ∈ (dir_remove f d).*1 -> g <> f /\ g ∈ d.*1.
Proof.
  unfold dir_remove. intros H. apply list_elem_of_fmap in H as ([k v] & -> & H).
  apply list_elem_of_filter in H as [Hne H]. split; [exact Hne|].
  apply list_elem_of_fmap. exists (k, v). auto.
Qed.

Lemma filter_names_set {V} (P : string -> bool) (k : string) (v : V)
    (d : list (string * V)) :
  P k = false ->
  filter (fun f => P f) (dict_set k v d).*1 = filter (fun f => P f) (d.*1).
Proof.
  intros Hk. induction d as [|[k' v'] d IH]; cbn [dict_set].
  - change ([(k, v)].*1) with [k].
    rewrite filter_cons, decide_False; [reflexivity|]. rewrite Hk. intros [].
  - destruct (String.eqb_spec k' k) as [->|Hne]; [reflexivity|].
    change (filter (fun f => P f) (k' :: (dict_set k v d).*1)
            = filter (fun f => P f) (k' :: d.*1)).
    rewrite !filter_cons, IH. reflexivity.
Qed.

Lemma print_print (es1 es2 : list event) (w : world) :
  print es2 (print es1 w) = print (es1 ++ es2) w.
Proof. unfold print. cbn. rewrite app_assoc. reflexivity. Qed.

Lemma convert_run (f : string) (w : world) :
  HEIF_SUPPORT w = true ->
  convert_heic_to_jpeg f w =
    match dict_get f (the_dir w) with
    | None => (print [Heic_converting f] w, inl (Uncaught OSError))
    | Some e =>
        match jpeg_of (content_of e) with
        | inl ex =>
            (after_failed_save f e (print [Heic_converting f] w), inl (Uncaught ex))
        | inr img =>
            (set_dir (dir_remove f
                        (dict_set (jpeg_name f)
                           {| content_of := Img img (inr img); mtime := now w |}
                           (the_dir w)))
               (print [Heic_converting f] w),
             inr (Some (jpeg_name f)))
        end
    end.
Proof.
  intros Hh.
  unfold convert_heic_to_jpeg, lookup_file, lift_exn, after_failed_save, jpeg_name.
  se_unfold. rewrite Hh. cbn [negb].
  change (the_dir (print [Heic_converting f] w)) with (the_dir w).
  destruct (dict_get f (the_dir w)) as [e|]; [|reflexivity].
  destruct (jpeg_of (content_of e)) as [ex|img]; [|reflexivity].
  destruct (left_of (content_of e)) as [rest|]; [|reflexivity].
  destruct (dict_get _ (the_dir w)); reflexivity.
Qed.

Lemma convert_all_cons (f : string) (names : list string) (w : world) :
  convert_all (f :: names) w =
    if is_heic f then
      match convert_heic_to_jpeg f w with
      | (w', inr _) => convert_all names w'
      | (w', inl a) => (w', inl a)
      end
    else convert_all names w.
Proof.
  unfold convert_all. cbn [for_each]. destruct (is_heic f); [|reflexivity].
  unfold mbind, se_bind, mret, se_ret.
  destruct (convert_heic_to_jpeg f w) as [w' [a|r]]; reflexivity.
Qed.

Lemma after_failed_save_other (f g : string) (e : file_entry) (w : world) :
  g <> (splitext f).1 ++ ".jpeg" ->
  dict_get g (the_dir (after_failed_save f e w)) = dict_get g (the_dir w).
Proof.
  intros Hg. unfold after_failed_save, jpeg_name.
  destruct (left_of (content_of e)) as [rest|]; [|reflexivity].
  destruct (dict_get _ (the_dir w)); [|reflexivity].
  change (the_dir (set_dir ?d _)) with d. apply dict_get_set_ne. congruence.
Qed.


Lemma convert_ok (f : string) (w w' : world) (r : option string) :
  convert_heic_to_jpeg f w = (w', inr r) ->
  (HEIF_SUPPORT w = false /\ w' = print [Heic_skipped f] w) \/
  (HEIF_SUPPORT w = true /\
   exists v, the_dir w' = dir_remove f (dict_set ((splitext f).1 ++ ".jpeg") v (the_dir w)) /\
             HEIF_SUPPORT w' = true).
Proof.
  destruct (HEIF_SUPPORT w) eqn:Hh.
  - rewrite (convert_run _ _ Hh).
    destruct (dict_get f (the_dir w)) as [e|]; [|discriminate].
    destruct (jpeg_of (content_of e)) as [ex|img]; [discriminate|].
    intros [= <- _]. right. split; [reflexivity|]. eexists. split; [reflexivity|].
    exact Hh.
  - unfold convert_heic_to_jpeg. se_unfold. rewrite Hh. cbn [negb].
    intros [= <- _]. left. auto.
Qed.

Lemma convert_all_no_heic_left (names : list string) (w w1 : world) :
  HEIF_SUPPORT w = true ->
  convert_all names w = (w1, inr tt) ->
  (forall g, g ∈ (the_dir w).*1 -> is_heic g = true -> g ∈ names) ->
  Forall (fun g => is_heic g = false) (the_dir w1).*1.
Proof.
  revert w. induction names as [|f rest IH]; intros w Hh H Hinv.
  - injection H as <-. apply Forall_forall. intros g Hg.
    destruct (is_heic g) eqn:E; [|reflexivity].
    specialize (Hinv g Hg E). inversion Hinv.
  - unfold convert_all in H. cbn [for_each] in H.
    apply bind_ok in H as (w' & [] & Hf & H).
    destruct (is_heic f) eqn:Ef.
    + apply bind_ok in Hf as (w'' & r & Hc & Hf). injection Hf as ->.
      apply convert_ok in Hc as [[Hh' _]|(_ & v & Hd & Hh')]; [congruence|].
      apply (IH w' Hh' H). intros g Hg Eg. rewrite Hd in Hg.
      apply elem_of_names_remove in Hg as [Hne Hg].
      apply elem_of_names_set in Hg as [->|Hg].
      * rewrite converted_not_heic in Eg by exact Ef. discriminate.
      * specialize (Hinv g Hg Eg). apply elem_of_cons in Hinv as [->|Hin];
          [contradiction|exact Hin].
    + injection Hf as <-. apply (IH w Hh H). intros g Hg Eg.
      specialize (Hinv g Hg Eg). apply elem_of_cons in Hinv as [->|Hin];
        [congruence|exact Hin].
Qed.

Lemma convert_skip (f : string) (w : world) :
  HEIF_SUPPORT w = false ->
  convert_heic_to_jpeg f w = (print [Heic_skipped f] w, inr None).
Proof.
  intros Hh. unfold convert_heic_to_jpeg. se_unfold. rewrite Hh. reflexivity.
Qed.

Lemma convert_all_noop (names : list string) (w : world) :
  HEIF_SUPPORT w = false \/ Forall (fun g => is_heic g = false) names ->
  exists es, convert_all names w = (print es w, inr tt).
Proof.
  revert w. induction names as [|f rest IH]; intros w H.
  - exists []. unfold print. cbn. rewrite app_nil_r. destruct w; reflexivity.
  - unfold convert_all in *. cbn [for_each]. destruct (is_heic f) eqn:Ef.
    + destruct H as [Hh|HF]; [|inversion HF; congruence].
      destruct (IH (print [Heic_skipped f] w) (or_introl Hh)) as [es Hes].
      exists (Heic_skipped f :: es).
      rewrite (bind_eq _ _ w (print [Heic_skipped f] w) tt).
      * rewrite Hes, print_print. reflexivity.
      * rewrite (bind_eq _ _ w (print [Heic_skipped f] w) None);
          [reflexivity|apply convert_skip; exact Hh].
    + destruct (IH w) as [es Hes].
      { destruct H as [Hh|HF]; [left; exact Hh|right; inversion HF; assumption]. }
      exists es. rewrite (bind_eq _ _ w w tt); [exact Hes|reflexivity].
Qed.

(** ** The stages of a run *)

Lemma process_eq (favorites_set : gset string) (collections_config : json)
    (f : string) (w : world) :
  let r := process_result favorites_set collections_config f (dict_get f (the_dir w)) in
  process favorites_set collections_config f w = (print r.1 w, r.2).
Proof.
  unfold process, process_result, lookup_file, lift_exn. se_unfold.
  destruct (dict_get f (the_dir w)) as [e|] eqn:Ed;
    destruct (extract_exif f _) as [exif diag]; cbn [fst snd];
    destruct (truthy (date exif));
    change (the_dir (print diag w)) with (the_dir w); rewrite ?Ed;
    try destruct (categories_of favorites_set collections_config f);
    reflexivity.
Qed.

Lemma map_each_process_ext (favorites_set : gset string) (collections_config : json)
    (files : list string) (wa wb wa' : world) (photos : list photo) :
  (forall f, f ∈ files -> dict_get f (the_dir wa) = dict_get f (the_dir wb)) ->
  map_each files (process favorites_set collections_config) wa = (wa', inr photos) ->
  exists es,
    map_each files (process favorites_set collections_config) wb
      = (print es wb, inr photos).
Proof.
  revert wa wb wa' photos. induction files as [|f rest IH];
    intros wa wb wa' photos Hd H.
  - injection H as _ <-. exists []. unfold print. cbn. rewrite app_nil_r.
    destruct wb; reflexivity.
  - cbn [map_each] in H |- *.
    apply bind_ok in H as (wa1 & p & Hp & H).
    apply bind_ok in H as (wa2 & ps & Hps & H). injection H as _ <-.
    pose proof (process_eq favorites_set collections_config f wa) as Ea.
    pose proof (process_eq favorites_set collections_config f wb) as Eb.
    cbn zeta in Ea, Eb. rewrite <- (Hd f) in Eb by left.
    rewrite Hp in Ea. injection Ea as -> Er.
    rewrite <- Er in Eb.
    set (diag := (process_result favorites_set collections_config f
                    (dict_get f (the_dir wa))).1) in *.
    destruct (IH (print diag wa) (print diag wb) wa2 ps
                 (fun g Hg => Hd g (list_elem_of_further _ _ _ Hg)) Hps) as [es Hes].
    eexists. rewrite (bind_eq _ _ _ _ _ Eb), (bind_eq _ _ _ _ _ Hes).
    cbn. rewrite print_print. reflexivity.
Qed.

Lemma configure_eq (files : list string) (w : world) (config : json)
    (written : option json) (printed : list event)
    (favorites_set : gset string) (collections_config : json) :
  load_config files (config_state w) = inr (config, written, printed) ->
  py_get config "favorites" (JArr []) ≫= py_set = inr favorites_set ->
  py_get config "collections" (JObj []) = inr collections_config ->
  configure files w =
    (print printed (match written with Some c => set_config c w | None => w end),
     inr (favorites_set, collections_config)).
Proof.
  intros L Hf Hc. unfold configure, lift_exn. se_unfold. rewrite L.
  destruct (py_get config "favorites" (JArr [])) as [e1|favs]; [discriminate|].
  cbn in Hf |- *. rewrite Hf, Hc. destruct written; reflexivity.
Qed.

Lemma texts_of_texts (l : list string) : texts_of (JStr <$> l) = l.
Proof. induction l as [|x l IH]; [reflexivity|]. cbn. f_equal. exact IH. Qed.

Lemma hashable_texts (l : list string) : forallb hashable (JStr <$> l) = true.
Proof. induction l as [|x l IH]; [reflexivity|exact IH]. Qed.

Lemma known_after_listing (d : list (string * json)) (l : list string) :
  known_photos (JObj (dict_set "_all_photos" (JArr (JStr <$> l)) d))
    = inr (list_to_set l).
Proof.
  unfold known_photos. cbn [py_get]. rewrite dict_get_set_eq. cbn.
  rewrite hashable_texts, texts_of_texts. reflexivity.
Qed.

(** Loading again the configuration a call of [load_config] left behind
    returns the same configuration and writes nothing. *)
Lemma load_config_again (files : list string) (cf : config_file) (config : json)
    (written : option json) (printed : list event) :
  load_config files cf = inr (config, written, printed) ->
  load_config files (match written with Some c => Stored c | None => cf end)
    = inr (config, None, []).
Proof.
  intros L.
  apply load_config_inv in L
    as [(-> & -> & ->)|[(ex & -> & Hk & Hsub & ->)|(d & ex & -> & Hk & Hnew & -> & ->)]].
  - apply (load_config_known _ _ (list_to_set (sorted files))).
    + unfold known_photos, default_config. cbn.
      rewrite hashable_texts, texts_of_texts. reflexivity.
    + intros f Hf. apply elem_of_list_to_set. apply elem_of_list_to_set in Hf.
      apply elem_of_sort_by. exact Hf.
  - apply (load_config_known _ _ ex Hk Hsub).
  - apply (load_config_known _ _ _ (known_after_listing d _)).
    intros f Hf. apply elem_of_list_to_set, elem_of_sort_by, elem_of_elements.
    exact Hf.
Qed.

Lemma main_run (w w1 w2 w3 w' : world) (d : list (string * file_entry))
    (favorites_set : gset string) (collections_config : json) (photos : list photo) :
  photos_dir w = Some d ->
  convert_all (listdir w) w = (w1, inr tt) ->
  configure (supported_names (listdir w1)) w1
    = (w2, inr (favorites_set, collections_config)) ->
  map_each (supported_names (listdir w1)) (process favorites_set collections_config) w2
    = (w3, inr photos) ->
  emit (sort_by pdate photos) w3 = (w', inr tt) ->
  main w = (w', inr tt).
Proof.
  intros Hd Hc Hconf Hmap He. unfold main.
  rewrite (bind_eq _ _ w w (Some d)) by (unfold gets; rewrite Hd; reflexivity).
  rewrite (bind_eq _ _ w w (listdir w)) by reflexivity.
  rewrite (bind_eq _ _ _ _ _ Hc).
  rewrite (bind_eq _ _ w1 w1 (listdir w1)) by reflexivity.
  rewrite (bind_eq _ _ _ _ _ Hconf).
  rewrite (bind_eq _ _ _ _ _ Hmap). exact He.
Qed.

Lemma scan_supported (d : list (string * file_entry)) (f : string) :
  f ∈ scan d -> is_supported f = true.
Proof.
  unfold scan, supported_names, sorted. rewrite elem_of_sort_by. intros H.
  apply list_elem_of_filter in H as [H _]. apply Is_true_true. exact H.
Qed.

Lemma scan_with_manifest (e : file_entry) (d : list (string * file_entry)) :
  scan (dict_set OUTPUT_JSON e d) = scan d.
Proof. unfold scan, supported_names. rewrite filter_names_set; reflexivity. Qed.

(** After the conversion stage either HEIC files are skipped or none is
    left in the directory. *)
Lemma convert_all_done (w w1 : world) :
  convert_all (listdir w) w = (w1, inr tt) ->
  HEIF_SUPPORT w1 = HEIF_SUPPORT w /\
  (HEIF_SUPPORT w1 = false \/ Forall (fun g => is_heic g = false) (the_dir w1).*1).
Proof.
  intros Hc.
  assert (Hk : HEIF_SUPPORT w1 = HEIF_SUPPORT w).
  { pose proof (convert_all_kept HEIF_SUPPORT (fun _ _ => eq_refl) (listdir w)
                  (fun _ _ => eq_refl) w) as H.
    unfold kept in H. rewrite Hc in H. exact H. }
  split; [exact Hk|]. rewrite Hk.
  destruct (HEIF_SUPPORT w) eqn:Hh; [right|left; reflexivity].
  apply (convert_all_no_heic_left _ _ _ Hh Hc).
  intros g Hg _. apply listdir_files. exact Hg.
Qed.

(** ** Two runs on the same input *)

















(** * Further properties *)

(** ** More on the conversion of HEIC files *)

Lemma heic_has_extension (f : string) :
  is_heic f = true -> all_dots (splitext f).1 = false.
Proof.
  intros H. apply splitext_ext. intros E. unfold is_heic in H. rewrite E in H.
  vm_compute in H. discriminate.
Qed.

Lemma jpeg_name_supported (f : string) :
  all_dots (splitext f).1 = false -> is_supported (jpeg_name f) = true.
Proof.
  intros Hext. unfold jpeg_name.
  set (root := (splitext f).1) in *. clearbody root.
  unfold is_supported, splitext. rewrite split_last_dot_jpeg, Hext. reflexivity.
Qed.

Lemma jpeg_name_fresh (f : string) :
  is_heic f = true -> jpeg_name f <> f /\ jpeg_name f <> OUTPUT_JSON.
Proof.
  intros H. split.
  - intros E. pose proof (converted_not_heic f H) as Hn.
    fold (jpeg_name f) in Hn. rewrite E in Hn. congruence.
  - intros E. pose proof (jpeg_name_supported f (heic_has_extension f H)) as Hs.
    rewrite E in Hs. vm_compute in Hs. discriminate.
Qed.

(** X1.  Converting a HEIC file with HEIF support replaces it: the source
    name is gone from the directory, the JPEG made from it stands under
    the source's root name with [.jpeg], stamped with the current time
    (whatever was stored under that name before), and every other file is
    as it was. *)
Theorem convert_replaces_source (f : string) (w w' : world) (r : option string) :
  HEIF_SUPPORT w = true ->
  is_heic f = true ->
  convert_heic_to_jpeg f w = (w', inr r) ->
  r = Some (jpeg_name f) /\
  dict_get f (the_dir w') = None /\
  (exists e img,
     dict_get f (the_dir w) = Some e /\ jpeg_of (content_of e) = inr img /\
     dict_get (jpeg_name f) (the_dir w')
       = Some {| content_of := Img img (inr img); mtime := now w |}) /\
  (forall g, g <> f -> g <> jpeg_name f ->
             dict_get g (the_dir w') = dict_get g (the_dir w)).
Proof.
  intros Hh Hf H. rewrite (convert_run f w Hh) in H.
  destruct (jpeg_name_fresh f Hf) as [Hfresh _].
  destruct (dict_get f (the_dir w)) as [e|] eqn:Ee; [|discriminate].
  destruct (jpeg_of (content_of e)) as [ex|img] eqn:Ej; [discriminate|].
  injection H as <- <-. split; [reflexivity|].
  change (the_dir (set_dir ?d _)) with d.
  split; [rewrite dict_get_remove, decide_True by reflexivity; reflexivity|].
  split.
  - exists e, img. split; [reflexivity|]. split; [exact Ej|].
    rewrite dict_get_remove, decide_False by exact Hfresh. apply dict_get_set_eq.
  - intros g Hgf Hgn. rewrite dict_get_remove, decide_False by exact Hgf.
    apply dict_get_set_ne. congruence.
Qed.

Lemma convert_replaces_source_witness :
  dict_get "x.HEIC" (the_dir (convert_heic_to_jpeg "x.HEIC" c9_world).1) = None /\
  dict_get "a.jpg" (the_dir (convert_heic_to_jpeg "x.HEIC" c9_world).1)
    = dict_get "a.jpg" (the_dir c9_world).
Proof.
  destruct (convert_heic_to_jpeg "x.HEIC" c9_world) as [w' r] eqn:E.
  assert (Hr : r = inr (Some "x.jpeg")) by (vm_compute in E; congruence).
  subst r.
  destruct (convert_replaces_source "x.HEIC" c9_world w' _ eq_refl eq_refl E)
    as (_ & Hgone & _ & Hrest).
  split; [exact Hgone|]. apply Hrest; discriminate.
Defined.

(** X2.  A conversion in which [Image.open] or [img.save] raises removes
    nothing and writes under no name but the target's: the source and
    every other file are as they were, and the exception is the one
    Pillow raised (an [OSError] when the source is not there).  The world
    differs from the one before only by the line printed, unless the
    encoder raised when [img.save] had opened a JPEG that stood under the
    target name: that file is then left truncated, stamped with the
    current time. *)
Theorem convert_failure_keeps_source (f : string) (w w' : world) (a : abort) :
  convert_heic_to_jpeg f w = (w', inl a) ->
  HEIF_SUPPORT w = true /\
  (is_heic f = true -> dict_get f (the_dir w') = dict_get f (the_dir w)) /\
  (forall g, g <> jpeg_name f -> dict_get g (the_dir w') = dict_get g (the_dir w)) /\
  match dict_get f (the_dir w) with
  | None => a = Uncaught OSError /\ w' = print [Heic_converting f] w
  | Some e =>
      exists ex, jpeg_of (content_of e) = inl ex /\ a = Uncaught ex /\
        match left_of (content_of e), dict_get (jpeg_name f) (the_dir w) with
        | Some rest, Some _ =>
            dict_get (jpeg_name f) (the_dir w')
              = Some {| content_of := Img rest (inl OSError); mtime := now w |} /\
            console w' = (console w ++ [Heic_converting f])%list
        | _, _ => w' = print [Heic_converting f] w
        end
  end.
Proof.
  intros H. destruct (HEIF_SUPPORT w) eqn:Hh;
    [|rewrite (convert_skip f w Hh) in H; discriminate].
  split; [reflexivity|]. rewrite (convert_run f w Hh) in H.
  assert (Hothers : forall g, g <> jpeg_name f ->
                              dict_get g (the_dir w') = dict_get g (the_dir w)).
  { intros g Hg. destruct (dict_get f (the_dir w)) as [e|];
      [|injection H as <- _; reflexivity].
    destruct (jpeg_of (content_of e)) as [ex|img]; [|discriminate].
    injection H as <- _. unfold after_failed_save.
    change (the_dir (print ?es w)) with (the_dir w).
    destruct (left_of (content_of e)) as [rest|]; [|reflexivity].
    destruct (dict_get (jpeg_name f) (the_dir w)); [|reflexivity].
    change (the_dir (set_dir ?d _)) with d. apply dict_get_set_ne. congruence. }
  split.
  { intros Hf. apply Hothers. intros E.
    destruct (jpeg_name_fresh f Hf) as [Hne _]. apply Hne. symmetry. exact E. }
  split; [exact Hothers|].
  destruct (dict_get f (the_dir w)) as [e|]; [|injection H as <- <-; auto].
  destruct (jpeg_of (content_of e)) as [ex|img]; [|discriminate].
  injection H as <- <-. exists ex. split; [reflexivity|]. split; [reflexivity|].
  unfold after_failed_save. change (the_dir (print ?es w)) with (the_dir w).
  destruct (left_of (content_of e)) as [rest|]; [|reflexivity].
  destruct (dict_get (jpeg_name f) (the_dir w)); [|reflexivity].
  change (the_dir (set_dir ?d _)) with d. rewrite dict_get_set_eq. auto.
Qed.

Lemma convert_failure_keeps_source_witness :
  dict_get "x.HEIC" (the_dir (convert_heic_to_jpeg "x.HEIC" unsavable_world).1)
    = dict_get "x.HEIC" (the_dir unsavable_world) /\
  dict_get "x.jpeg" (the_dir (convert_heic_to_jpeg "x.HEIC" unsavable_world).1)
    = Some {| content_of := Img (Unreadable OSError) (inl OSError); mtime := noon |}.
Proof.
  destruct (convert_heic_to_jpeg "x.HEIC" unsavable_world) as [w' r] eqn:E.
  assert (Hr : r = inl (Uncaught OSError)) by (vm_compute in E; congruence).
  subst r. destruct (convert_failure_keeps_source _ _ _ _ E) as (_ & Hsrc & _ & Hleft).
  split; [apply Hsrc; reflexivity|].
  destruct Hleft as (ex & _ & _ & Hleft & _). exact Hleft.
Defined.

(** ** More on complete runs *)

(** What a run that completes leaves in the photo directory. *)
Lemma main_shape (w w' : world) :
  main w = (w', inr tt) ->
  exists d w1 photos,
    photos_dir w = Some d /\
    convert_all (listdir w) w = (w1, inr tt) /\
    file <$> photos = scan (the_dir w1) /\
    the_dir w' = dict_set OUTPUT_JSON
                   {| content_of := Manifest (sort_by pdate photos); mtime := now w |}
                   (the_dir w1) /\
    output_js w' = Some (sort_by pdate photos).
Proof.
  intros H.
  apply main_ok in H
    as (d & w1 & w2 & w3 & fav & cols & photos & Hd & Hc & Hconf & Hmap & He).
  exists d, w1, photos. split; [exact Hd|]. split; [exact Hc|].
  split.
  { apply files_of_photos.
    exact (map_each_ok (fun f p => file p = f) _ (process_file fav cols) _ _ _ _ Hmap). }
  assert (K1 : now w1 = now w).
  { pose proof (convert_all_kept now (fun _ _ => eq_refl) (listdir w)
                  (fun _ _ => eq_refl) w) as K.
    unfold kept in K. rewrite Hc in K. exact K. }
  assert (K2 : the_dir w2 = the_dir w1 /\ now w2 = now w1).
  { pose proof (fun X (g : world -> X) Hp Hs =>
                  configure_kept g Hp (scan (the_dir w1)) Hs w1) as K.
    unfold kept in K. rewrite Hconf in K. cbn [fst] in K.
    split; apply K; reflexivity. }
  assert (K3 : the_dir w3 = the_dir w2 /\ now w3 = now w2).
  { pose proof (fun X (g : world -> X) Hg =>
      steps_map_each (kept g) (scan (the_dir w1)) (process fav cols)
        (fun f => process_kept g Hg fav cols f) w2) as K.
    unfold kept in K. rewrite Hmap in K. cbn [fst] in K.
    split; apply K; reflexivity. }
  destruct K2 as [D2 N2], K3 as [D3 N3].
  apply emit_done in He as ->.
  split; [|reflexivity].
  change (the_dir (print ?es (set_output_js ?l (set_dir ?d0 ?w0)))) with d0.
  rewrite D3, D2, N3, N2, K1. reflexivity.
Qed.

(** X3.  After a run that completes with HEIF support, no file of the
    photo directory has a HEIC extension any more. *)
Theorem no_heic_left_after_run (w w' : world) :
  HEIF_SUPPORT w = true ->
  main w = (w', inr tt) ->
  Forall (fun g => is_heic g = false) (the_dir w').*1.
Proof.
  intros Hh H. apply main_shape in H as (d & w1 & photos & Hd & Hc & _ & Hdir & _).
  destruct (convert_all_done _ _ Hc) as [Hk [Hf|HF]]; [congruence|].
  rewrite Hdir. apply Forall_forall. intros g Hg.
  apply elem_of_names_set in Hg as [->|Hg]; [reflexivity|].
  rewrite Forall_forall in HF. apply HF. exact Hg.
Qed.

Lemma no_heic_left_after_run_witness :
  Forall (fun g => is_heic g = false) (the_dir c9_first).*1.
Proof.
  apply (no_heic_left_after_run c9_world c9_first); [reflexivity|].
  vm_compute. reflexivity.
Defined.

(** X5.  The manifest of a run that completes has exactly one record for
    each file of the photo directory whose extension is supported, and no
    other record. *)
Theorem one_record_per_supported_file (w w' : world) :
  main w = (w', inr tt) ->
  exists m,
    manifest w' = Some m /\
    Permutation (file <$> m) (filter (fun f => is_supported f) (the_dir w').*1).
Proof.
  intros H. apply main_shape in H as (d & w1 & photos & _ & _ & Hf & Hdir & _).
  exists (sort_by pdate photos). split.
  - unfold manifest. rewrite Hdir, dict_get_set_eq. reflexivity.
  - rewrite Hdir, filter_names_set by reflexivity.
    rewrite <- (sort_by_perm pdate photos), Hf.
    symmetry. apply sort_by_perm.
Qed.

Lemma one_record_per_supported_file_witness :
  Permutation (file <$> demo_manifest)
    (filter (fun f => is_supported f) (the_dir demo_final).*1).
Proof.
  destruct (one_record_per_supported_file demo_world demo_final)
    as (m & Hm & HP); [vm_compute; reflexivity|].
  assert (E : manifest demo_final = Some demo_manifest) by (vm_compute; reflexivity).
  rewrite E in Hm. injection Hm as <-. exact HP.
Defined.

Lemma convert_all_names (names : list string) (w w1 : world) :
  HEIF_SUPPORT w = true ->
  convert_all names w = (w1, inr tt) ->
  (forall g, g ∈ (the_dir w).*1 -> is_heic g = false -> g ∈ (the_dir w1).*1) /\
  (forall f, f ∈ names -> is_heic f = true -> jpeg_name f ∈ (the_dir w1).*1).
Proof.
  revert w. induction names as [|f rest IH]; intros w Hh H.
  - injection H as <-. split; [auto|]. intros f Hf. inversion Hf.
  - unfold convert_all in H. cbn [for_each] in H.
    apply bind_ok in H as (w' & [] & Hf & H).
    destruct (is_heic f) eqn:Ef.
    + apply bind_ok in Hf as (w'' & r & Hc & Hf). injection Hf as ->.
      apply convert_ok in Hc as [[Hh' _]|(_ & v & Hd & Hh')]; [congruence|].
      fold (jpeg_name f) in Hd.
      destruct (IH w' Hh' H) as [A B].
      assert (A0 : forall g, g ∈ (the_dir w).*1 -> is_heic g = false ->
                             g ∈ (the_dir w').*1).
      { intros g Hg Eg. rewrite Hd. apply names_remove_there; [congruence|].
        apply names_set_there. exact Hg. }
      split.
      * intros g Hg Eg. apply A; [apply A0|]; assumption.
      * intros f0 Hf0 Ef0. apply elem_of_cons in Hf0 as [->|Hf0]; [|apply B; assumption].
        apply A; [|apply converted_not_heic; exact Ef].
        rewrite Hd. apply names_remove_there; [apply jpeg_name_fresh; exact Ef|].
        apply names_set_here.
    + injection Hf as <-. destruct (IH w Hh H) as [A B]. split; [exact A|].
      intros f0 Hf0 Ef0. apply elem_of_cons in Hf0 as [->|Hf0]; [congruence|].
      apply B; assumption.
Qed.

(** X4.  In a run that completes with HEIF support, a HEIC file of the
    photo directory is no longer there afterwards, and the manifest has a
    record for the JPEG made from it. *)
Theorem converted_file_gets_record (w w' : world) (f : string) :
  HEIF_SUPPORT w = true ->
  main w = (w', inr tt) ->
  f ∈ (the_dir w).*1 ->
  is_heic f = true ->
  dict_get f (the_dir w') = None /\
  exists m p, manifest w' = Some m /\ p ∈ m /\ file p = jpeg_name f.
Proof.
  intros Hh H Hf Ef.
  apply main_shape in H as (d & w1 & photos & Hd & Hc & Hfiles & Hdir & _).
  split.
  - apply dict_get_names. intros Hin. rewrite Hdir in Hin.
    apply elem_of_names_set in Hin as [->|Hin]; [discriminate Ef|].
    destruct (convert_all_done _ _ Hc) as [Hk [Hnone|HF]]; [congruence|].
    rewrite Forall_forall in HF. specialize (HF f Hin). congruence.
  - destruct (convert_all_names _ _ _ Hh Hc) as [_ B].
    assert (Hin : jpeg_name f ∈ scan (the_dir w1)).
    { unfold scan, supported_names, sorted.
      apply elem_of_sort_by, list_elem_of_filter. split.
      - rewrite jpeg_name_supported; [exact I|apply heic_has_extension; exact Ef].
      - apply B; [apply listdir_files; exact Hf|exact Ef]. }
    rewrite <- Hfiles in Hin. apply list_elem_of_fmap in Hin as (p & Hp & Hin).
    exists (sort_by pdate photos), p. split.
    + unfold manifest. rewrite Hdir, dict_get_set_eq. reflexivity.
    + split; [apply elem_of_sort_by; exact Hin|symmetry; exact Hp].
Qed.

Lemma converted_file_gets_record_witness :
  dict_get "x.HEIC" (the_dir c9_first) = None /\
  exists m p, manifest c9_first = Some m /\ p ∈ m /\ file p = "x.jpeg".
Proof.
  apply (converted_file_gets_record c9_world c9_first "x.HEIC").
  - reflexivity.
  - vm_compute. reflexivity.
  - vm_compute. left.
  - reflexivity.
Defined.

(** ** Running again *)

(** The HEIC names a completed conversion stage went through were files
    of the directory. *)
Lemma convert_all_were_files (names : list string) (w w1 : world) :
  HEIF_SUPPORT w = true ->
  convert_all names w = (w1, inr tt) ->
  forall g, g ∈ names -> is_heic g = true -> g ∈ (the_dir w).*1.
Proof.
  revert w. induction names as [|f names IH]; intros w Hh H g Hg Eg; [inversion Hg|].
  rewrite convert_all_cons in H. destruct (is_heic f) eqn:Ef.
  - destruct (convert_heic_to_jpeg f w) as [v [a|r]] eqn:Ec; [discriminate|].
    rewrite (convert_run f w Hh) in Ec.
    destruct (dict_get f (the_dir w)) as [e|] eqn:Ee; [|discriminate].
    assert (Hf : f ∈ (the_dir w).*1).
    { destruct (decide (f ∈ (the_dir w).*1)) as [Hin|Hout]; [exact Hin|].
      apply dict_get_names in Hout. congruence. }
    apply elem_of_cons in Hg as [->|Hg]; [exact Hf|].
    destruct (jpeg_of (content_of e)) as [ex|img]; [discriminate|]. injection Ec as <- _.
    apply (fun K => IH _ K H g Hg) in Eg as IH'; [|exact Hh].
    change (the_dir (set_dir ?d _)) with d in IH'.
    apply elem_of_names_remove in IH' as [_ IH'].
    apply elem_of_names_set in IH' as [->|IH']; [|exact IH'].
    unfold jpeg_name in Eg. rewrite converted_not_heic in Eg by exact Ef. discriminate.
  - apply elem_of_cons in Hg as [->|Hg]; [congruence|]. exact (IH w Hh H g Hg Eg).
Qed.

(** X22.  When a run completes, running the script again on what it left
    behind, at any later time, completes too and writes the same list of
    records to [photos_data.json] and to [photos_data.js]; the
    configuration file stays as the first run left it.  A converted file
    without a date in its metadata is no exception: the first run dated
    its record by the modification time of the JPEG it had just written,
    and the second run reads the same time.  No broken link is taken to
    bear the name of a file. *)
Theorem rerun_reproduces_outputs (w w' : world) (t : datetime) :
  Forall (fun l => l.2 ∉ (the_dir w).*1) (broken_links w) ->
  main w = (w', inr tt) ->
  exists w'',
    main (set_now t w') = (w'', inr tt) /\
    manifest w'' = manifest w' /\
    output_js w'' = output_js w' /\
    config_state w'' = config_state w'.
Proof.
  intros Hlinks H.
  apply main_stages in H
    as (d & w1 & w2 & w3 & fav & cols & photos & Hd & Hc & Hconf & Hmap & He).
  (* what the first run found *)
  assert (Hfiles : forall g, g ∈ listdir w1 -> is_supported g = true ->
                             g ∈ (the_dir w1).*1).
  { intros g Hg Pg. pose proof (configure_dir _ _ _ _ _ Hconf) as [Hdir _].
    pose proof (map_each_process_files _ _ _ _ _ _ Hmap) as [Hall _]. rewrite Hdir in Hall.
    rewrite Forall_forall in Hall. apply Hall.
    unfold supported_names, sorted. apply elem_of_sort_by.
    apply list_elem_of_filter. split; [rewrite Pg; exact I|exact Hg]. }
  assert (Hscan1 : supported_names (listdir w1) = scan (the_dir w1)).
  { unfold scan, supported_names, listdir. f_equal. apply filter_listing. exact Hfiles. }
  destruct (convert_all_done _ _ Hc) as [Hheif1 Hheic].
  assert (Hl1 : broken_links w1 = broken_links w).
  { pose proof (convert_all_kept broken_links (fun _ _ => eq_refl) (listdir w)
                  (fun _ _ => eq_refl) w) as K.
    unfold kept in K. rewrite Hc in K. exact K. }
  pose proof Hconf as Hconf0.
  apply configure_ok in Hconf
    as (config & written & printed & L & Hfav & Hcols & ->).
  set (w2 := print printed (match written with
                            | Some c => set_config c w1
                            | None => w1
                            end)) in *.
  assert (K2 : the_dir w2 = the_dir w1 /\ HEIF_SUPPORT w2 = HEIF_SUPPORT w1 /\
               broken_links w2 = broken_links w1 /\ machine w2 = machine w1 /\
               config_state w2 =
                 match written with Some c => Stored c | None => config_state w1 end)
    by (subst w2; destruct written; repeat split; reflexivity).
  destruct K2 as (Hdir2 & Hheif2 & Hl2 & Hm2 & Hconf2).
  assert (K3 : the_dir w3 = the_dir w2 /\ HEIF_SUPPORT w3 = HEIF_SUPPORT w2 /\
               config_state w3 = config_state w2 /\
               broken_links w3 = broken_links w2 /\ machine w3 = machine w2).
  { pose proof (fun X (g : world -> X) Hg =>
      steps_map_each (kept g) (supported_names (listdir w1)) (process fav cols)
        (fun f => process_kept g Hg fav cols f) w2) as K.
    unfold kept in K. rewrite Hmap in K. cbn [fst] in K.
    repeat split; apply K; reflexivity. }
  destruct K3 as (Hdir3 & Hheif3 & Hconf3 & Hl3 & Hm3).
  destruct (emit_willing _ _ _ He) as (H1 & H2 & H3).
  apply emit_done in He as ->.
  set (entry1 := {| content_of := Manifest (sort_by pdate photos); mtime := now w3 |}).
  set (w' := print _ _).
  set (W := set_now t w').
  assert (HdirW : photos_dir W = Some (dict_set OUTPUT_JSON entry1 (the_dir w1)))
    by (cbn; rewrite Hdir3, Hdir2; reflexivity).
  assert (HtheW : the_dir W = dict_set OUTPUT_JSON entry1 (the_dir w1))
    by (unfold the_dir; rewrite HdirW; reflexivity).
  assert (HlW : broken_links W = broken_links w)
    by (cbn; rewrite Hl3, Hl2, Hl1; reflexivity).
  (* the conversion stage finds nothing to do *)
  assert (Hnoop : HEIF_SUPPORT W = false \/
                  Forall (fun g => is_heic g = false) (listdir W)).
  { destruct (HEIF_SUPPORT w) eqn:Hh.
    - right. destruct Hheic as [Hf|HF]; [congruence|].
      apply Forall_forall. intros g Hg. unfold listdir in Hg. rewrite HtheW, HlW in Hg.
      apply elem_of_listing in Hg as [Hg|Hg].
      + apply elem_of_names_set in Hg as [->|Hg]; [reflexivity|].
        rewrite Forall_forall in HF. exact (HF g Hg).
      + destruct (is_heic g) eqn:Eg; [exfalso|reflexivity].
        assert (Hin : g ∈ listdir w) by (apply elem_of_listing; right; exact Hg).
        pose proof (convert_all_were_files _ _ _ Hh Hc g Hin Eg) as Hfile.
        apply list_elem_of_fmap in Hg as (l & -> & Hl).
        rewrite Forall_forall in Hlinks. exact (Hlinks l Hl Hfile).
    - left. cbn. rewrite Hheif3, Hheif2. exact Hheif1. }
  destruct (convert_all_noop (listdir W) W Hnoop) as [es Hc'].
  set (W1 := print es W) in *.
  assert (HdirW1 : the_dir W1 = dict_set OUTPUT_JSON entry1 (the_dir w1)) by exact HtheW.
  assert (Hscan : supported_names (listdir W1) = supported_names (listdir w1)).
  { rewrite Hscan1. change (listdir W1) with (listdir W). unfold listdir.
    rewrite HtheW, HlW, <- Hl1. unfold supported_names at 1. rewrite filter_listing.
    - apply scan_with_manifest.
    - intros g Hg Pg. apply elem_of_listing in Hg as [Hg|Hg]; [exact Hg|].
      apply names_set_there. apply Hfiles; [|exact Pg].
      apply elem_of_listing. right. exact Hg. }
  (* the configuration is read back as it was left *)
  assert (Hconf' : configure (supported_names (listdir W1)) W1
                   = (print [] W1, inr (fav, cols))).
  { rewrite Hscan. apply (configure_eq _ _ config None []); [|exact Hfav|exact Hcols].
    change (config_state W1) with (config_state w3). rewrite Hconf3, Hconf2.
    apply (load_config_again _ _ _ _ printed L). }
  (* every file gives the record it gave before *)
  destruct (map_each_process_ext fav cols (supported_names (listdir w1)) w2 (print [] W1)
              w3 photos) as [es' Hmap']; [|exact Hmap|].
  { intros f Hf. change (the_dir (print [] W1)) with (the_dir W1).
    rewrite Hdir2, HdirW1. symmetry. apply dict_get_set_ne.
    intros <-. rewrite Hscan1 in Hf. apply scan_supported in Hf. discriminate. }
  rewrite <- Hscan in Hmap'.
  eexists. split.
  { apply (main_run W W1 _ _ _ _ fav cols photos HdirW Hc' Hconf' Hmap').
    apply emit_eq; change (machine (print es' (print [] W1))) with (machine w3);
      assumption. }
  unfold manifest. cbn. rewrite !dict_get_set_eq.
  split; [reflexivity|]. split; [reflexivity|]. reflexivity.
Qed.

Lemma rerun_reproduces_outputs_witness :
  exists w'', main (set_now evening (main c9_undated).1) = (w'', inr tt) /\
              manifest w'' = manifest (main c9_undated).1 /\
              output_js w'' = output_js (main c9_undated).1.
Proof.
  destruct (main c9_undated) as [w' r] eqn:E.
  assert (Hr : r = inr tt) by (vm_compute in E; congruence). subst r.
  destruct (rerun_reproduces_outputs c9_undated w' evening (List.Forall_nil _) E)
    as (w'' & Hrun & Hm & Hj & _).
  exists w''. auto.
Defined.

(** ** Runs that end early *)

Lemma quiet_bind {X A B} (g : world -> X) (c : Run A) (f : A -> Run B) :
  steps (kept g) c -> (forall x, quiet g (f x)) -> quiet g (c ≫= f).
Proof.
  intros Hc Hf w w' a H. unfold mbind, se_bind in H.
  pose proof (Hc w) as K. unfold kept in K.
  destruct (c w) as [w1 [e|x]]; cbn [fst] in K.
  - injection H as <- _. exact K.
  - rewrite <- K. exact (Hf x w1 w' a H).
Qed.

Lemma quiet_of_steps {X A} (g : world -> X) (c : Run A) :
  steps (kept g) c -> quiet g c.
Proof. intros Hc w w' a H. specialize (Hc w). rewrite H in Hc. exact Hc. Qed.




(** How [emit] can end early: before the JSON file is written, between
    the two files, or after both. *)
Lemma emit_abort (photos : list photo) (w w' : world) (a : abort) :
  emit photos w = (w', inl a) ->
  let w1 := set_dir (dict_set OUTPUT_JSON
                       {| content_of := Manifest photos; mtime := now w |} (the_dir w)) w in
  (json_writable (machine w) = false /\ a = Uncaught OSError /\ w' = w) \/
  (js_writable (machine w) = false /\ a = Uncaught OSError /\ w' = w1) \/
  (unicode_console (machine w) = false /\ a = Uncaught ValueError /\
   w' = set_output_js photos w1).
Proof.
  unfold emit, open_w. se_unfold.
  destruct (json_writable (machine w)); [|intros [= <- <-]; left; auto].
  change (machine (set_dir ?d w)) with (machine w).
  destruct (js_writable (machine w)); [|intros [= <- <-]; right; left; auto].
  change (machine (set_output_js ?l ?v)) with (machine w).
  destruct (unicode_console (machine w)); [discriminate|].
  intros [= <- <-]. right. right. auto.
Qed.




(** ** What a run does to the other files *)

Lemma steps_for_each_in {A} (R : world -> world -> Prop) `{!PreOrder R}
    (l : list A) (body : A -> Run unit) :
  (forall x, x ∈ l -> steps R (body x)) -> steps R (for_each l body).
Proof.
  induction l as [|x l IH]; intros Hb; cbn [for_each].
  - apply steps_ret; typeclasses eauto.
  - apply steps_bind; [typeclasses eauto|apply Hb; left|intros _].
    apply IH. intros y Hy. apply Hb. right. exact Hy.
Qed.

Lemma convert_without_support (f g : string) :
  steps (kept (fun w => if HEIF_SUPPORT w then None
                        else Some (dict_get g (the_dir w))))
        (convert_heic_to_jpeg f).
Proof.
  intros w. unfold kept. destruct (HEIF_SUPPORT w) eqn:Hh.
  - assert (K : HEIF_SUPPORT (convert_heic_to_jpeg f w).1 = HEIF_SUPPORT w)
      by (apply (convert_kept HEIF_SUPPORT); reflexivity).
    rewrite K, Hh. reflexivity.
  - rewrite (convert_skip f w Hh). cbn. rewrite Hh. reflexivity.
Qed.

(** The world [emit] leaves, by how far it gets. *)
Lemma emit_world (photos : list photo) (w : world) :
  let w1 := set_dir (dict_set OUTPUT_JSON
                       {| content_of := Manifest photos; mtime := now w |} (the_dir w)) w in
  (emit photos w).1 = w \/ (emit photos w).1 = w1 \/
  (emit photos w).1 = set_output_js photos w1 \/
  (emit photos w).1 =
    print [Summary (length photos) (fav_count photos) (col_counts photos)]
      (set_output_js photos w1).
Proof.
  destruct (emit photos w) as [w' [a|[]]] eqn:E; cbn [fst].
  - apply emit_abort in E as [(_ & _ & ->)|[(_ & _ & ->)|(_ & _ & ->)]]; auto.
  - apply emit_done in E as ->. auto 6.
Qed.

Lemma rest_of_main_other_file {X} (view : world -> X) :
  (forall es w, view (print es w) = view w) ->
  (forall c w, view (set_config c w) = view w) ->
  (forall l w, view (set_output_js l w) = view w) ->
  (forall e w, view (set_dir (dict_set OUTPUT_JSON e (the_dir w)) w) = view w) ->
  steps (kept view)
    (names ← gets listdir;
     '(favorites_set, collections_config) ← configure (supported_names names);
     photos ← map_each (supported_names names) (process favorites_set collections_config);
     emit (sort_by pdate photos)).
Proof.
  intros Hp Hc Hj Hd.
  steps_bind_as names; [steps_auto|].
  steps_bind_as [fav cols]; [apply configure_kept; assumption|].
  steps_bind_as photos.
  - apply steps_map_each; [typeclasses eauto|]. intros f. apply process_kept. exact Hp.
  - intros w. unfold kept.
    destruct (emit_world (sort_by pdate photos) w) as [-> | [-> | [-> | ->]]];
      rewrite ?Hp, ?Hj; first [reflexivity|apply Hd].
Qed.

(** The conversion stage leaves a file alone that is no HEIC file and
    not the JPEG target of a HEIC file of the directory. *)
Lemma convert_all_other_file (g : string) (names : list string) (w : world) :
  is_heic g = false ->
  (forall f, f ∈ (the_dir w).*1 -> is_heic f = true -> jpeg_name f <> g) ->
  dict_get g (the_dir (convert_all names w).1) = dict_get g (the_dir w).
Proof.
  intros Eg. revert w. induction names as [|f names IH]; intros w Hnames;
    [reflexivity|].
  rewrite convert_all_cons.
  destruct (is_heic f) eqn:Ef; [|exact (IH w Hnames)].
  destruct (HEIF_SUPPORT w) eqn:Hh;
    [|rewrite (convert_skip f w Hh); apply (IH (print [Heic_skipped f] w) Hnames)].
  rewrite (convert_run f w Hh).
  destruct (dict_get f (the_dir w)) as [e|] eqn:Ee; [|reflexivity].
  assert (Hf : f ∈ (the_dir w).*1).
  { destruct (decide (f ∈ (the_dir w).*1)) as [Hin|Hout]; [exact Hin|].
    apply dict_get_names in Hout. congruence. }
  pose proof (Hnames f Hf Ef) as Hn.
  destruct (jpeg_of (content_of e)) as [ex|img].
  { cbn [fst]. rewrite after_failed_save_other by (fold (jpeg_name f); congruence).
    reflexivity. }
  set (w1 := set_dir _ _).
  assert (Hg1 : dict_get g (the_dir w1) = dict_get g (the_dir w)).
  { subst w1. change (the_dir (set_dir ?d _)) with d.
    rewrite dict_get_remove, decide_False by congruence.
    apply dict_get_set_ne. congruence. }
  rewrite <- Hg1. apply IH. intros f0 Hf0 Ef0. apply Hnames; [|exact Ef0].
  subst w1. change (the_dir (set_dir ?d _)) with d in Hf0.
  apply elem_of_names_remove in Hf0 as [_ Hf0].
  apply elem_of_names_set in Hf0 as [->|Hf0]; [|exact Hf0].
  unfold jpeg_name in Ef0. rewrite converted_not_heic in Ef0 by exact Ef. discriminate.
Qed.

(** X7.  Whatever its outcome, a run changes no file of the photo
    directory other than the manifest, the HEIC files it converts and the
    JPEG files it converts them to; without HEIF support it changes none
    but the manifest. *)
Theorem other_files_untouched (w : world) (g : string) :
  g <> OUTPUT_JSON ->
  HEIF_SUPPORT w = false \/
  (is_heic g = false /\
   forall f, f ∈ (the_dir w).*1 -> is_heic f = true -> jpeg_name f <> g) ->
  dict_get g (the_dir (main w).1) = dict_get g (the_dir w).
Proof.
  intros Hg H. unfold main. unfold mbind at 1, se_bind at 1, gets at 1.
  destruct (photos_dir w) as [d|] eqn:Hd; [|reflexivity].
  unfold mbind at 1, se_bind at 1, gets at 1.
  destruct H as [Hh|[Eg Hnames]].
  - set (view := fun w => if HEIF_SUPPORT w then None
                          else Some (dict_get g (the_dir w))).
    assert (K : steps (kept view)
                  (convert_all (listdir w) ≫= fun _ =>
                   names ← gets listdir;
                   '(favorites_set, collections_config) ← configure (supported_names names);
                   photos ← map_each (supported_names names)
                              (process favorites_set collections_config);
                   emit (sort_by pdate photos))).
    { apply steps_bind; [typeclasses eauto| |intros _].
      - apply steps_for_each; [typeclasses eauto|]. intros f.
        destruct (is_heic f); [|steps_auto].
        steps_bind_tac; [apply convert_without_support|steps_auto].
      - apply rest_of_main_other_file; try reflexivity.
        intros e w0. unfold view. cbn. destruct (HEIF_SUPPORT w0); [reflexivity|].
        rewrite dict_get_set_ne by congruence. reflexivity. }
    specialize (K w). unfold kept, view in K. rewrite Hh in K.
    match type of K with
    | (if ?b then _ else _) = _ => destruct b; [discriminate|]
    end.
    injection K as K. exact K.
  - set (view := fun w => dict_get g (the_dir w)).
    pose proof (convert_all_other_file g (listdir w) w Eg Hnames) as K1.
    unfold mbind at 1, se_bind at 1.
    destruct (convert_all (listdir w) w) as [w1 [a|[]]]; [exact K1|].
    cbn [fst] in K1. rewrite <- K1.
    assert (K : steps (kept view)
                  (names ← gets listdir;
                   '(favorites_set, collections_config) ← configure (supported_names names);
                   photos ← map_each (supported_names names)
                              (process favorites_set collections_config);
                   emit (sort_by pdate photos))).
    { apply rest_of_main_other_file; try reflexivity.
      intros e w0. unfold view. cbn. apply dict_get_set_ne. congruence. }
    exact (K w1).
Qed.

Lemma other_files_untouched_witness :
  dict_get "a.jpg" (the_dir (main c9_world).1) = dict_get "a.jpg" (the_dir c9_world).
Proof.
  apply other_files_untouched; [discriminate|]. right. split; [reflexivity|].
  intros f Hf Ef. change (the_dir c9_world).*1 with ["x.HEIC"; "a.jpg"] in Hf.
  apply elem_of_cons in Hf as [->|Hf]; [discriminate|].
  apply list_elem_of_singleton in Hf. subst f. discriminate Ef.
Defined.

(** ** More on [load_config] *)

(** X8.  When [load_config] returns, the configuration file holds the
    configuration returned, and that configuration knows every file name
    discovered in this run. *)
Theorem load_config_covers_scan (files : list string) (cf : config_file)
    (config : json) (written : option json) (printed : list event) :
  load_config files cf = inr (config, written, printed) ->
  (written = Some config \/ (written = None /\ cf = Stored config)) /\
  exists known, known_photos config = inr known /\ list_to_set files ⊆ known.
Proof.
  intros L.
  apply load_config_inv in L
    as [(-> & -> & ->)|[(ex & -> & Hk & Hsub & ->)|(d & ex & -> & Hk & Hnew & -> & ->)]].
  - split; [auto|]. exists (list_to_set (sorted files)). split.
    + unfold known_photos, default_config. cbn.
      rewrite hashable_texts, texts_of_texts. reflexivity.
    + intros f Hf. apply elem_of_list_to_set. apply elem_of_list_to_set in Hf.
      apply elem_of_sort_by. exact Hf.
  - split; [auto|]. exists ex. auto.
  - split; [auto|]. eexists. split; [apply known_after_listing|].
    intros f Hf. apply elem_of_list_to_set, elem_of_sort_by, elem_of_elements.
    exact Hf.
Qed.

Lemma load_config_covers_scan_witness :
  exists known, known_photos c2_updated = inr known /\
                (list_to_set ["new.jpg"] : gset string) ⊆ known.
Proof.
  apply (load_config_covers_scan ["new.jpg"] (Stored c2_config) c2_updated
           (Some c2_updated) [Config_added 1]).
  vm_compute. reflexivity.
Defined.

(** X9.  Calling [load_config] again with the same file names, on the
    file a first call left, returns the same configuration and writes and
    prints nothing. *)
Theorem load_config_settles (files : list string) (cf : config_file) (config : json)
    (written : option json) (printed : list event) :
  load_config files cf = inr (config, written, printed) ->
  load_config files (match written with Some c => Stored c | None => cf end)
    = inr (config, None, []).
Proof. apply load_config_again. Qed.

Lemma load_config_settles_witness :
  load_config ["new.jpg"] (Stored c2_updated) = inr (c2_updated, None, []).
Proof.
  apply (load_config_settles ["new.jpg"] (Stored c2_config) c2_updated
           (Some c2_updated) [Config_added 1]).
  vm_compute. reflexivity.
Defined.

(** X10.  [load_config] raises exactly when the file exists and either
    cannot be parsed (a [ValueError]) or holds a value from which the set
    of known names cannot be built: the exception is the one that building
    the set raises, whatever the file names discovered. *)
Theorem load_config_raises (files : list string) (cf : config_file) (e : py_exn) :
  load_config files cf = inl e <->
  (cf = Malformed /\ e = ValueError) \/
  (exists config, cf = Stored config /\ known_photos config = inl e).
Proof.
  split.
  - intros L. destruct cf as [| |config]; [discriminate| |].
    + injection L as <-. left. auto.
    + right. exists config. split; [reflexivity|].
      destruct (known_photos config) as [e'|known] eqn:Hk.
      * rewrite (load_config_fails _ _ _ Hk) in L. injection L as ->. reflexivity.
      * destruct (decide (list_to_set files ⊆ known)) as [Hsub|Hnew].
        -- rewrite (load_config_known _ _ _ Hk Hsub) in L. discriminate.
        -- destruct (known_photos_dict _ _ Hk) as [d ->].
           rewrite (load_config_new _ _ _ Hk Hnew) in L. discriminate.
  - intros [[-> ->]|(config & -> & Hk)]; [reflexivity|].
    apply load_config_fails. exact Hk.
Qed.

(** X11.  [load_config] keeps the keys of the configuration in their
    order: [_all_photos] stays where it is, and when the key is missing
    and the list is written it is added after the last key. *)
Theorem load_config_keeps_key_order (files : list string) (d : list (string * json))
    (config : json) (written : option json) (printed : list event) :
  load_config files (Stored (JObj d)) = inr (config, written, printed) ->
  exists d',
    config = JObj d' /\
    d'.*1 = match dict_get "_all_photos" d, written with
            | None, Some _ => (d.*1 ++ ["_all_photos"])%list
            | _, _ => d.*1
            end.
Proof.
  intros L.
  apply load_config_inv in L
    as [(? & _)|[(ex & [= <-] & Hk & Hsub & ->)|(d0 & ex & [= <-] & Hk & Hnew & -> & ->)]];
    [discriminate| |].
  - exists d. split; [reflexivity|]. destruct (dict_get "_all_photos" d); reflexivity.
  - eexists. split; [reflexivity|]. rewrite names_dict_set.
    destruct (dict_get "_all_photos" d); reflexivity.
Qed.

Lemma load_config_keeps_key_order_witness :
  exists d',
    keyless_updated = JObj d' /\
    d'.*1 = ["favorites"; "collections"; "_all_photos"].
Proof.
  assert (L : load_config ["a.jpg"] (Stored keyless_config)
              = inr (keyless_updated, Some keyless_updated, [Config_added 1]))
    by (vm_compute; reflexivity).
  destruct (load_config_keeps_key_order _ _ _ _ _ L) as (d' & E & Hd).
  exists d'. split; [exact E|exact Hd].
Defined.

Lemma load_config_raises_witness :
  load_config ["a.jpg"] (Stored (JArr [])) = inl AttributeError.
Proof.
  apply load_config_raises. right. exists (JArr []). split; reflexivity.
Defined.

(** ** The first run *)

Lemma default_categories (f : string) :
  categories_of ∅ (JObj [("flowers", JArr []); ("food", JArr []); ("friends", JArr [])]) f
    = inr [].
Proof.
  unfold categories_of. rewrite bool_decide_eq_false_2 by apply not_elem_of_empty.
  reflexivity.
Qed.

(** X12.  A run that completes without a configuration file creates it:
    afterwards the file holds the default configuration, whose
    [_all_photos] is the sorted list of the supported files of the
    directory, and no record of the manifest has categories. *)
Theorem first_run_creates_default (w w' : world) :
  config_state w = Missing ->
  main w = (w', inr tt) ->
  config_state w' = Stored (default_config (scan (the_dir w'))) /\
  exists m, manifest w' = Some m /\ Forall (fun p => categories p = None) m.
Proof.
  intros Hmiss H.
  pose proof (main_shape _ _ H) as (d0 & w10 & photos0 & Hd0 & Hc0 & _ & Hdir & _).
  apply main_ok in H
    as (d & w1 & w2 & w3 & fav & cols & photos & Hd & Hc & Hconf & Hmap & He).
  rewrite Hd in Hd0. injection Hd0 as <-.
  assert (w10 = w1) by congruence. subst w10. clear Hc0.
  assert (K1 : config_state w1 = Missing).
  { pose proof (convert_all_kept config_state (fun _ _ => eq_refl) (listdir w)
                  (fun _ _ => eq_refl) w) as K.
    unfold kept in K. rewrite Hc in K. cbn [fst] in K. congruence. }
  apply configure_ok in Hconf
    as (config & written & printed & L & Hfav & Hcols & ->).
  rewrite K1 in L. injection L as <- <- <-.
  assert (Hcats : forall f, categories_of fav cols f = inr []).
  { injection Hfav as <-. injection Hcols as <-. apply default_categories. }
  set (w2 := print [Config_created]
               (set_config (default_config (scan (the_dir w1))) w1)) in *.
  assert (K3 : config_state w3 = config_state w2).
  { pose proof (steps_map_each (kept config_state) (scan (the_dir w1))
                  (process fav cols)
                  (fun f => process_kept config_state (fun _ _ => eq_refl) fav cols f)
                  w2) as K.
    unfold kept in K. rewrite Hmap in K. exact K. }
  apply emit_ok in He as (Hm & _ & Hcs).
  split.
  - rewrite Hcs, K3, Hdir, scan_with_manifest. reflexivity.
  - exists (sort_by pdate photos). split; [exact Hm|].
    assert (HF : Forall (fun p => categories p = None) photos).
    { apply (Forall2_right _ (scan (the_dir w1))).
      refine (map_each_ok (fun _ p => categories p = None) (process fav cols)
                _ _ _ _ _ Hmap).
      intros f s s' p Hp.
      apply process_ok in Hp as (_ & cats & Hc' & Hp).
      rewrite Hcats in Hc'. injection Hc' as <-.
      destruct Hp as [[_ ->]|(_ & e & _ & ->)]; reflexivity. }
    rewrite Forall_forall in *. intros p Hp. apply HF.
    apply elem_of_sort_by in Hp. exact Hp.
Qed.

Lemma first_run_creates_default_witness :
  config_state c9_first = Stored (default_config ["a.jpg"; "x.jpeg"]) /\
  exists m, manifest c9_first = Some m /\ Forall (fun p => categories p = None) m.
Proof.
  destruct (first_run_creates_default c9_world c9_first) as [Hc Hm];
    [reflexivity|vm_compute; reflexivity|].
  split; [|exact Hm]. rewrite Hc. vm_compute. reflexivity.
Defined.

(** ** More on [extract_exif] *)

Lemma extract_exif_gps (name : string) (kv : string * exif_val)
    (raw : list (string * exif_val)) :
  let exif := dict_of (kv :: raw) in
  extract_exif name (Opened (Some (kv :: raw))) =
    match gps_block exif (date_loop date_tags exif no_result) with
    | (result, inl e) => (result, [Exif_error name e])
    | (result, inr _) => (result, [])
    end.
Proof. reflexivity. Qed.

(** X13.  [extract_exif] returns coordinates only when the EXIF table
    has a GPS directory that holds both a latitude and a longitude, each
    of which converts to degrees; in that case nothing is logged. *)
Theorem geo_needs_both_axes (name : string) (img : image) (g : geo) :
  geo_of (extract_exif name img).1 = Some g ->
  (extract_exif name img).2 = [] /\
  exists raw v items vlat vlon x y,
    img = Opened (Some raw) /\
    dict_of raw !! "GPSInfo" = Some v /\ py_items v = Some items /\
    dict_of items !! "GPSLatitude" = Some vlat /\ to_degrees vlat = inr x /\
    dict_of items !! "GPSLongitude" = Some vlon /\ to_degrees vlon = inr y.
Proof.
  destruct img as [e|e|[[|kv raw]|]]; try discriminate.
  rewrite extract_exif_gps. cbn zeta.
  set (exif := dict_of (kv :: raw)).
  assert (Hg0 : geo_of (date_loop date_tags exif no_result) = None)
    by apply date_loop_geo.
  set (r0 := date_loop date_tags exif no_result) in *. clearbody r0.
  unfold gps_block.
  destruct (exif !! "GPSInfo") as [v|] eqn:Ev;
    [|cbn; rewrite Hg0; discriminate].
  se_unfold.
  destruct (py_items v) as [items|] eqn:Ei; [|cbn; rewrite Hg0; discriminate].
  destruct (dict_of items !! "GPSLatitude") as [vlat|] eqn:Elat;
    [|cbn; rewrite Hg0; discriminate].
  destruct (dict_of items !! "GPSLongitude") as [vlon|] eqn:Elon;
    [|cbn; rewrite Hg0; discriminate].
  destruct (to_degrees vlat) as [e1|x] eqn:Ex; [cbn; rewrite Hg0; discriminate|].
  destruct (to_degrees vlon) as [e2|y] eqn:Ey; [cbn; rewrite Hg0; discriminate|].
  intros _. split; [reflexivity|].
  exists (kv :: raw), v, items, vlat, vlon, x, y. auto 10.
Qed.

Lemma geo_needs_both_axes_witness :
  (extract_exif "a.jpg" (Opened (Some c5_raw))).2 = [] /\
  exists raw, Opened (Some c5_raw) = Opened (Some raw) /\
              is_Some (dict_of raw !! "GPSInfo").
Proof.
  destruct (geo_needs_both_axes "a.jpg" (Opened (Some c5_raw))
              {| lat := 40.446111; lon := -79.982222 |})
    as (Hlog & raw & v & _ & _ & _ & _ & _ & E & Hv & _); [vm_compute; reflexivity|].
  split; [exact Hlog|]. exists raw. split; [exact E|]. rewrite Hv. eauto.
Defined.

(** X14.  A GPS directory that lacks the latitude or the longitude is no
    error: [extract_exif] returns no coordinates, logs nothing, and the
    date is the one the timestamp fields give. *)
Theorem one_axis_is_no_error (name : string) (raw : list (string * exif_val))
    (v : exif_val) (items : list (string * gps_val)) :
  dict_of raw !! "GPSInfo" = Some v ->
  py_items v = Some items ->
  dict_of items !! "GPSLatitude" = None \/ dict_of items !! "GPSLongitude" = None ->
  extract_exif name (Opened (Some raw))
    = (date_loop date_tags (dict_of raw) no_result, []) /\
  geo_of (extract_exif name (Opened (Some raw))).1 = None.
Proof.
  intros Hv Hi Hmiss.
  destruct raw as [|kv raw]; [rewrite dict_of_nil, lookup_empty in Hv; discriminate|].
  assert (E : extract_exif name (Opened (Some (kv :: raw)))
              = (date_loop date_tags (dict_of (kv :: raw)) no_result, [])).
  { rewrite extract_exif_gps. cbn zeta. unfold gps_block. rewrite Hv. se_unfold.
    rewrite Hi. destruct Hmiss as [-> | ->]; [reflexivity|].
    destruct (dict_of items !! "GPSLatitude"); reflexivity. }
  split; [exact E|]. rewrite E. apply date_loop_geo.
Qed.

Lemma one_axis_is_no_error_witness :
  extract_exif "a.jpg" lat_only = (no_result, []).
Proof.
  destruct (one_axis_is_no_error "a.jpg"
              [ ("GPSInfo", gps_ifd [ ("GPSLatitude", GTuple [whole 40; whole 26; whole 46]) ]) ]
              (gps_ifd [ ("GPSLatitude", GTuple [whole 40; whole 26; whole 46]) ])
              [ ("GPSLatitude", GTuple [whole 40; whole 26; whole 46]) ])
    as [E _]; [vm_compute; reflexivity|reflexivity|right; vm_compute; reflexivity|].
  exact E.
Defined.

(** ** Extensions *)

Lemma split_last_dot_append (s a b : string) :
  split_last_dot s = Some (a, b) -> s = (a ++ b)%string.
Proof.
  revert a b. induction s as [|c r IH]; intros a b H; [discriminate|].
  cbn [split_last_dot] in H.
  destruct (split_last_dot r) as [[a' b']|].
  - injection H as <- <-.
    change (String c r = String c (a' ++ b')%string). f_equal. apply IH. reflexivity.
  - destruct (Ascii.eqb c "."); [|discriminate]. injection H as <- <-. reflexivity.
Qed.

Lemma append_empty (s : string) : (s ++ "")%string = s.
Proof.
  induction s as [|c r IH]; [reflexivity|].
  change (String c (r ++ "")%string = String c r). f_equal. exact IH.
Qed.

(** X15.  No file name is both converted and scanned: a name with a HEIC
    extension is not supported. *)
Theorem heic_is_not_supported (f : string) :
  is_heic f = true -> is_supported f = false.
Proof.
  unfold is_heic, is_supported. intros H.
  apply bool_decide_eq_true in H. apply bool_decide_eq_false.
  unfold HEIC_EXTENSIONS in H. apply elem_of_union in H as [H|H];
    apply elem_of_singleton in H; rewrite H; vm_compute; discriminate.
Qed.

Lemma heic_is_not_supported_witness : is_supported "x.HEIC" = false.
Proof. apply heic_is_not_supported. reflexivity. Defined.

(** X16.  A file name gets a record only if it is a root that is not
    made of dots alone, followed by one of the supported extensions in any
    mix of upper and lower case: names such as [jpg] or [.jpg] are passed
    over. *)
Theorem supported_name_shape (f : string) :
  is_supported f = true ->
  exists root ext,
    f = (root ++ ext)%string /\ all_dots root = false /\
    lower ext ∈ SUPPORTED_EXTENSIONS.
Proof.
  unfold is_supported. intros H. apply bool_decide_eq_true in H.
  exists (splitext f).1, (splitext f).2. split; [|split; [|exact H]].
  - unfold splitext. destruct (split_last_dot f) as [[root ext]|] eqn:E.
    + destruct (all_dots root).
      * cbn [fst snd]. rewrite append_empty. reflexivity.
      * apply split_last_dot_append. exact E.
    + cbn [fst snd]. rewrite append_empty. reflexivity.
  - apply splitext_ext. intros E. rewrite E in H. vm_compute in H. discriminate.
Qed.

Lemma supported_name_shape_witness :
  exists root ext,
    "b.JPG" = (root ++ ext)%string /\ all_dots root = false /\
    lower ext ∈ SUPPORTED_EXTENSIONS.
Proof. apply supported_name_shape. reflexivity. Defined.

Example dotfile_not_supported : is_supported ".jpg" = false /\ is_supported "jpg" = false.
Proof. split; reflexivity. Qed.

(** ** The summary *)

Lemma count_step (c : string) (l : list string) (acc : list (string * nat)) :
  c <> "favorites" ->
  dict_get c
    (foldl (fun counts x =>
              if String.eqb x "favorites" then counts
              else dict_set x (default 0%nat (dict_get x counts) + 1)%nat counts)
           acc l) =
    match length (filter (fun x => x = c) l) with
    | O => dict_get c acc
    | S n => Some (default 0%nat (dict_get c acc) + S n)%nat
    end.
Proof.
  intros Hc. revert acc. induction l as [|x l IH]; intros acc; [reflexivity|].
  cbn [foldl]. rewrite filter_cons.
  destruct (String.eqb_spec x "favorites") as [->|Hx].
  - rewrite decide_False by congruence. apply IH.
  - rewrite IH. destruct (decide (x = c)) as [->|Hne]; cbn [length].
    + rewrite dict_get_set_eq. cbn [length default].
      unfold id. destruct (length (filter (fun x => x = c) l)); f_equal; lia.
    + rewrite dict_get_set_ne by exact Hne. reflexivity.
Qed.

(** X17.  The summary counts, for every category other than "favorites",
    the records that carry it; a collection no record belongs to is not
    listed, and "favorites" is never listed among the collections. *)
Theorem summary_counts_collections (photos : list photo) (c : string) :
  dict_get c (col_counts photos) =
    if decide (c = "favorites") then None
    else match occurrences c photos with
         | O => None
         | n => Some n
         end.
Proof.
  unfold col_counts, occurrences. destruct (decide (c = "favorites")) as [->|Hc].
  - assert (G : forall l acc, dict_get "favorites" acc = None ->
              dict_get "favorites"
                (foldl (fun counts x =>
                          if String.eqb x "favorites" then counts
                          else dict_set x (default 0%nat (dict_get x counts) + 1)%nat counts)
                       acc l) = None).
    { induction l as [|x l IH]; intros acc Hacc; [exact Hacc|].
      cbn [foldl]. destruct (String.eqb_spec x "favorites") as [->|Hx];
        [apply IH; exact Hacc|].
      apply IH. rewrite dict_get_set_ne by exact Hx. exact Hacc. }
    apply G. reflexivity.
  - rewrite (count_step c _ [] Hc).
    destruct (length _); reflexivity.
Qed.

(** ** Files that do not decode *)




(** ** When a run completes *)





(** ** HEIC files without HEIF support *)

Lemma print_nil (w : world) : print [] w = w.
Proof. unfold print. rewrite app_nil_r. destruct w; reflexivity. Qed.

(** X20.  Without HEIF support the conversion stage only prints: one
    warning for each file with a HEIC extension, in the order of the
    directory listing; it never fails and changes nothing else. *)
Theorem unsupported_heic_only_warned (names : list string) (w : world) :
  HEIF_SUPPORT w = false ->
  convert_all names w =
    (print (Heic_skipped <$> filter (fun f => is_heic f) names) w, inr tt).
Proof.
  revert w. induction names as [|f rest IH]; intros w Hh.
  - cbn. rewrite print_nil. reflexivity.
  - unfold convert_all in *. cbn [for_each]. rewrite filter_cons.
    destruct (is_heic f) eqn:Ef.
    + rewrite decide_True by exact I.
      rewrite (bind_eq _ _ w (print [Heic_skipped f] w) tt).
      * rewrite IH by exact Hh. rewrite print_print. reflexivity.
      * rewrite (bind_eq _ _ w (print [Heic_skipped f] w) None);
          [reflexivity|apply convert_skip; exact Hh].
    + rewrite decide_False by (intros []).
      rewrite (bind_eq _ _ w w tt) by reflexivity. apply IH. exact Hh.
Qed.

Lemma unsupported_heic_only_warned_witness :
  convert_all ["x.HEIC"; "a.jpg"] no_heif_world
    = (print [Heic_skipped "x.HEIC"] no_heif_world, inr tt).
Proof.
  exact (unsupported_heic_only_warned ["x.HEIC"; "a.jpg"] no_heif_world eq_refl).
Defined.

(** ** The order of the date texts *)

Lemma ascii_compare_refl (c : ascii) : Ascii.compare c c = Eq.
Proof. unfold Ascii.compare. apply N.compare_refl. Qed.

Lemma digit_compare (a b : Z) :
  0 <= a < 10 -> 0 <= b < 10 ->
  Ascii.compare (digit_chr a) (digit_chr b) = (a ?= b).
Proof.
  intros Ha Hb.
  assert (Ea : a = 0 \/ a = 1 \/ a = 2 \/ a = 3 \/ a = 4 \/ a = 5 \/ a = 6 \/ a = 7
               \/ a = 8 \/ a = 9) by lia.
  assert (Eb : b = 0 \/ b = 1 \/ b = 2 \/ b = 3 \/ b = 4 \/ b = 5 \/ b = 6 \/ b = 7
               \/ b = 8 \/ b = 9) by lia.
  repeat (destruct Ea as [->|Ea]); try subst a;
    repeat (destruct Eb as [->|Eb]); try subst b; reflexivity.
Qed.

Lemma digit_chr_mod (n : Z) : digit_chr n = digit_chr (n mod 10).
Proof. unfold digit_chr. rewrite Z.mod_mod by lia. reflexivity. Qed.

Lemma compare_div_mod (n m : Z) :
  0 <= n -> 0 <= m ->
  (n ?= m) = lex (n / 10 ?= m / 10) (n mod 10 ?= m mod 10).
Proof.
  intros Hn Hm.
  pose proof (Z.div_mod n 10 ltac:(lia)) as En.
  pose proof (Z.div_mod m 10 ltac:(lia)) as Em.
  pose proof (Z.mod_pos_bound n 10 ltac:(lia)) as Bn.
  pose proof (Z.mod_pos_bound m 10 ltac:(lia)) as Bm.
  unfold lex.
  destruct (Z.compare_spec (n / 10) (m / 10)) as [E|L|G].
  - destruct (Z.compare_spec (n mod 10) (m mod 10)) as [E'|L'|G'].
    + apply Z.compare_eq_iff. lia.
    + apply Z.compare_lt_iff. lia.
    + apply Z.compare_gt_iff. lia.
  - apply Z.compare_lt_iff. lia.
  - apply Z.compare_gt_iff. lia.
Qed.

Lemma zpad_compare (w : nat) (n m : Z) (X Y : string) :
  0 <= n < 10 ^ Z.of_nat w -> 0 <= m < 10 ^ Z.of_nat w ->
  String.compare (zpad w n X) (zpad w m Y) = lex (n ?= m) (String.compare X Y).
Proof.
  revert n m X Y. induction w as [|w IH]; intros n m X Y Hn Hm.
  - cbn in Hn, Hm. assert (n = 0) by lia. assert (m = 0) by lia. subst. reflexivity.
  - rewrite Nat2Z.inj_succ, Z.pow_succ_r in Hn, Hm by lia.
    cbn [zpad]. rewrite IH.
    + cbn [String.compare]. rewrite (digit_chr_mod n), (digit_chr_mod m).
      rewrite digit_compare by (apply Z.mod_pos_bound; lia).
      rewrite (compare_div_mod n m) by lia.
      destruct (n / 10 ?= m / 10); try reflexivity.
      destruct (n mod 10 ?= m mod 10); reflexivity.
    + split; [apply Z.div_pos; lia|apply Z.div_lt_upper_bound; lia].
    + split; [apply Z.div_pos; lia|apply Z.div_lt_upper_bound; lia].
Qed.

Lemma fraction_compare (u v : Z) :
  0 <= u < 1000000 -> 0 <= v < 1000000 ->
  String.compare (if Z.eqb u 0 then EmptyString else String "." (zpad 6 u EmptyString))
                 (if Z.eqb v 0 then EmptyString else String "." (zpad 6 v EmptyString))
  = (u ?= v).
Proof.
  intros Hu Hv.
  destruct (Z.eqb_spec u 0) as [->|Eu], (Z.eqb_spec v 0) as [->|Ev].
  - reflexivity.
  - symmetry. apply Z.compare_lt_iff. lia.
  - symmetry. apply Z.compare_gt_iff. lia.
  - cbn [String.compare]. rewrite ascii_compare_refl.
    rewrite zpad_compare by (cbn; lia). destruct (u ?= v); reflexivity.
Qed.

Lemma append_char (c : ascii) (X : string) :
  (String c EmptyString ++ X)%string = String c X.
Proof. reflexivity. Qed.

Lemma valid_ranges (dt : datetime) :
  valid dt = true ->
  0 <= year dt < 10000 /\ 0 <= month dt < 100 /\ 0 <= day dt < 100 /\
  0 <= hour dt < 100 /\ 0 <= minute dt < 100 /\ 0 <= second dt < 100.
Proof.
  unfold valid, days_in_month. intros H.
  repeat (apply andb_prop in H as [H ?]).
  destruct (month dt =? 2); [destruct (is_leap (year dt))|];
    try destruct ((month dt =? 4) || (month dt =? 6) || (month dt =? 9)
                  || (month dt =? 11)); lia.
Qed.

(** X21.  For two valid times, the order of their ISO texts, which is
    the order the manifest is sorted in, is their order in time: the text
    of the earlier time is the smaller one, and equal texts mean equal
    times down to the microsecond. *)
Theorem date_text_order_is_chronological (a b : datetime) :
  valid a = true -> valid b = true -> valid_us a -> valid_us b ->
  String.compare (isoformat a) (isoformat b) = chronological a b.
Proof.
  intros Va Vb Ua Ub.
  apply valid_ranges in Va as (Ya & Ma & Da & Ha & Mia & Sa).
  apply valid_ranges in Vb as (Yb & Mb & Db & Hb & Mib & Sb).
  unfold isoformat, chronological.
  rewrite zpad_compare by (cbn; lia).
  rewrite !append_char.
  f_equal. cbn [String.compare]. rewrite ascii_compare_refl.
  rewrite zpad_compare by (cbn; lia). f_equal.
  cbn [String.compare]. rewrite ascii_compare_refl.
  rewrite zpad_compare by (cbn; lia). f_equal.
  cbn [String.compare]. rewrite ascii_compare_refl.
  rewrite zpad_compare by (cbn; lia). f_equal.
  cbn [String.compare]. rewrite ascii_compare_refl.
  rewrite zpad_compare by (cbn; lia). f_equal.
  cbn [String.compare]. rewrite ascii_compare_refl.
  rewrite zpad_compare by (cbn; lia). f_equal.
  apply fraction_compare; assumption.
Qed.

Lemma date_text_order_is_chronological_witness :
  String.compare (isoformat morning) (isoformat noon) = Lt.
Proof.
  rewrite (date_text_order_is_chronological morning noon);
    [reflexivity|reflexivity|reflexivity|unfold valid_us; cbn; lia
    |unfold valid_us; cbn; lia].
Defined.
